(** * Hasegawa-Wakatani plasma kernel (phi/physics/plasma.py)

    A shallow embedding of the numerical kernel of [plasma.py]: periodic
    padding, the Arakawa bracket in its sliced ([arakawa_vec]) and
    stencil ([arakawa_stencil], [arakawa_3d]) forms, the hyperdiffusion
    operator [diffuse], the Euler integrator and the two step paths.

    Numbers: the samples are Python/numpy floats.  They are modelled as exact
    rationals [Q]; equalities between computed samples are stated with [==]
    ([Qeq]), i.e. in exact arithmetic, rounding is not modelled.

    Arrays: a numpy array of rank [n] is a nesting of [n] lists
    ([tensor n]); a rank-2 array is a list of rows. *)

From Stdlib Require Import String ZArith QArith List Lia Bool.

Import ListNotations.

Open Scope Q_scope.

(** ** Exceptions *)

Inductive exn : Type :=
| ValueError            (* np.pad(mode='wrap') on an empty axis *)
| IndexError            (* a[0] on an empty axis *)
| ZeroDivisionError     (* division of Python floats by zero *)
| NameError (name : string)
| NotModelled.          (* a step path run on a rank its array code is not
                           written for *)

Inductive result (A : Type) : Type :=
| Ok (a : A)
| Raise (e : exn).

Arguments Ok {A} a.

Arguments Raise {A} e.

Definition bind {A B} (m : result A) (k : A -> result B) : result B :=
  match m with
  | Ok a => k a
  | Raise e => Raise e
  end.

Notation "x <- m ;; k" := (bind m (fun x => k))
  (at level 61, m at next level, right associativity).

(** ** Arrays *)

Fixpoint tensor (n : nat) : Type :=
  match n with
  | O => Q
  | S k => list (tensor k)
  end.

Definition arr2 : Type := tensor 2.

Definition arr3 : Type := tensor 3.

(** [a[i, j]] for in-range non-negative indices. *)
Definition get2 (a : arr2) (i j : nat) : Q := nth j (nth i a []) 0.

(** A rank-2 array of shape [(H, W)]. *)
Definition shape2 (H W : nat) (a : arr2) : Prop :=
  length a = H /\ Forall (fun r => length r = W) a.

(** A rank-3 array of shape [(K, H, W)]. *)
Definition shape3 (K H W : nat) (a : arr3) : Prop :=
  length a = K /\ Forall (shape2 H W) a.

(** Sample-wise equality in exact arithmetic. *)
Definition row_eq : list Q -> list Q -> Prop := Forall2 Qeq.

Definition arr2_eq : arr2 -> arr2 -> Prop := Forall2 row_eq.

Definition arr3_eq : arr3 -> arr3 -> Prop := Forall2 arr2_eq.

(** Python slices along one axis, as used by [arakawa_vec]. *)
Inductive slice : Type :=
| Lo    (* [0:-2] *)
| Mid   (* [1:-1] *)
| Hi.   (* [2:]   *)

Definition take_slice {A} (s : slice) (l : list A) : list A :=
  match s with
  | Lo => firstn (length l - 2) l
  | Mid => firstn (length l - 2) (skipn 1 l)
  | Hi => skipn 2 l
  end.

Definition slice_off (s : slice) : nat :=
  match s with Lo => 0 | Mid => 1 | Hi => 2 end.

(** [a[r, c]] for two slices. *)
Definition sl2 (r c : slice) (a : arr2) : arr2 :=
  map (take_slice c) (take_slice r a).

(** Element-wise arithmetic of same-shaped arrays. *)
Fixpoint zipWith {A B C} (f : A -> B -> C) (l : list A) (m : list B) : list C :=
  match l, m with
  | x :: l', y :: m' => f x y :: zipWith f l' m'
  | _, _ => []
  end.

Definition ew2 (f : Q -> Q -> Q) (a b : arr2) : arr2 := zipWith (zipWith f) a b.

Definition add2 := ew2 Qplus.

Definition sub2 := ew2 Qminus.

Definition mul2 := ew2 Qmult.

Definition divs2 (a : arr2) (c : Q) : arr2 := map (map (fun x => x / c)) a.

Definition neg2 (a : arr2) : arr2 := map (map Qopp) a.

Declare Scope arr_scope.

Delimit Scope arr_scope with arr.

Infix "+" := add2 : arr_scope.

Infix "-" := sub2 : arr_scope.

Infix "*" := mul2 : arr_scope.

(** ** periodic_padding: [np.pad(A, 1, mode='wrap')]

    Every axis is extended by one cell on each side, filled from the
    opposite edge.  numpy refuses to wrap an empty axis. *)

Definition wrap1 {A} (l : list A) : result (list A) :=
  match l with
  | [] => Raise ValueError
  | x :: _ => Ok (last l x :: l ++ [x])
  end.

Fixpoint mapM {A B} (f : A -> result B) (l : list A) : result (list B) :=
  match l with
  | [] => Ok []
  | x :: l' => y <- f x ;; ys <- mapM f l' ;; Ok (y :: ys)
  end.

Fixpoint periodic_padding (n : nat) : tensor n -> result (tensor n) :=
  match n with
  | O => fun q => Ok q
  | S k => fun a => rows <- mapM (periodic_padding k) a ;; wrap1 rows
  end.

(** ** The Arakawa bracket *)

Notation "f .[ i , j ]" := (f i%Z j%Z)
  (at level 1, i at level 99, j at level 99, only parsing).

(** The body of [arakawa_stencil]: [zeta] and [psi] are read at offsets
    relative to the current cell. *)
Definition arakawa_kernel (zeta psi : Z -> Z -> Q) : Q :=
  zeta.[1, 0] * (psi.[0, 1] - psi.[0, -1] + psi.[1, 1] - psi.[1, -1])
  - zeta.[-1, 0] * (psi.[0, 1] - psi.[0, -1] + psi.[-1, 1] - psi.[-1, -1])
  - zeta.[0, 1] * (psi.[1, 0] - psi.[-1, 0] + psi.[1, 1] - psi.[-1, 1])
  + zeta.[0, -1] * (psi.[1, 0] - psi.[-1, 0] + psi.[1, -1] - psi.[-1, -1])
  + zeta.[1, -1] * (psi.[1, 0] - psi.[0, -1])
  + zeta.[1, 1] * (psi.[0, 1] - psi.[1, 0])
  - zeta.[-1, 1] * (psi.[0, 1] - psi.[-1, 0])
  - zeta.[-1, -1] * (psi.[-1, 0] - psi.[0, -1]).

(** [arakawa_vec]: the same combination written with shifted views of the
    padded arrays, divided by [4 * d**2]. *)
Definition arakawa_vec (zeta psi : arr2) (d : Q) : arr2 :=
  let z r c := sl2 r c zeta in
  let p r c := sl2 r c psi in
  divs2
    (z Hi Mid * (p Mid Hi - p Mid Lo + p Hi Hi - p Hi Lo)
     - z Lo Mid * (p Mid Hi - p Mid Lo + p Lo Hi - p Lo Lo)
     - z Mid Hi * (p Hi Mid - p Lo Mid + p Hi Hi - p Lo Hi)
     + z Mid Lo * (p Hi Mid - p Lo Mid + p Hi Lo - p Lo Lo)
     + z Hi Lo * (p Hi Mid - p Mid Lo)
     + z Hi Hi * (p Mid Hi - p Hi Mid)
     - z Lo Hi * (p Mid Hi - p Lo Mid)
     - z Lo Lo * (p Lo Mid - p Mid Lo))%arr
    (4 * d ^ 2).

(** [periodic_arakawa(zeta, psi, d=1.)]. *)
Definition periodic_arakawa (zeta psi : arr2) (d : Q) : result arr2 :=
  z <- periodic_padding 2 zeta ;;
  p <- periodic_padding 2 psi ;;
  Ok (arakawa_vec z p d).

(** [a] has shape [(H, W)] and holds [g i j] at [(i, j)]. *)
Definition tabulates (H W : nat) (a : arr2) (g : nat -> nat -> Q) : Prop :=
  shape2 H W a /\
  forall i j, (i < H)%nat -> (j < W)%nat -> get2 a i j = g i j.

(** The value read by the stencil at offset [(di, dj)] from the interior cell
    [(i, j)] of a padded array: the cell sits at [(i + 1, j + 1)] there. *)
Definition padded_at (a : arr2) (i j : nat) (di dj : Z) : Q :=
  get2 a (i + Z.to_nat (1 + di)) (j + Z.to_nat (1 + dj)).

(** ** Closed form of the padding of a non-empty array *)

(** The padded axis of a non-empty list. *)
Definition pad1 {A} (d : A) (l : list A) : list A := last l d :: l ++ [hd d l].

Definition pad2 (a : arr2) : arr2 := pad1 [] (map (pad1 0) a).

(** ** numba stencil form and the batched bracket *)

(** [a[i + di, j + dj]]: relative indexing inside a numba stencil kernel. *)
Definition rel_at (a : arr2) (i j : nat) (di dj : Z) : Q :=
  get2 a (Z.to_nat (Z.of_nat i + di)) (Z.to_nat (Z.of_nat j + dj)).

(** [@stencil arakawa_stencil(zeta, psi)]: the kernel reaches one cell in
    every direction, so numba evaluates it on the cells that have all their
    neighbours and leaves the border of the output at its constant value 0.
    The output has the shape of [zeta]. *)
Definition arakawa_stencil (zeta psi : arr2) : arr2 :=
  let H := length zeta in
  let W := length (hd [] zeta) in
  map (fun i =>
         map (fun j =>
                if ((1 <=? i) && (i + 1 <? H) && (1 <=? j) && (j + 1 <? W))%nat
                then arakawa_kernel (rel_at zeta i j) (rel_at psi i j)
                else 0)
             (seq 0 W))
      (seq 0 H).

(** [arakawa(z, p, d=1.)]. *)
Definition arakawa (z p : arr2) (d : Q) : arr2 :=
  divs2 (arakawa_stencil z p) (12 * d ^ 2).

(** The loop of [arakawa_3d]: [res[i] = arakawa_stencil(z[i], p[i])] for
    every index [i] of [z]. *)
Fixpoint arakawa_3d_loop (z p : arr3) : result arr3 :=
  match z with
  | [] => Ok []
  | zi :: z' =>
      match p with
      | [] => Raise IndexError
      | pi :: p' => rest <- arakawa_3d_loop z' p' ;;
                    Ok (arakawa_stencil zi pi :: rest)
      end
  end.

(** [arakawa_3d(z, p, d=1.)]. *)
Definition arakawa_3d (z p : arr3) (d : Q) : result arr3 :=
  res <- arakawa_3d_loop z p ;;
  Ok (map (fun s => divs2 s (12 * d ^ 2)) res).

(** [periodic_arakawa_3d(zeta, psi, d=1.)]: all three axes are padded, the
    two extra slices are dropped again, and [arakawa_3d] is called without
    [d], i.e. with its default [d = 1]. *)
Definition periodic_arakawa_3d (zeta psi : arr3) (d : Q) : result arr3 :=
  z <- periodic_padding 3 zeta ;;
  p <- periodic_padding 3 psi ;;
  r <- arakawa_3d (take_slice Mid z) (take_slice Mid p) 1 ;;
  Ok (map (sl2 Mid Mid) r).

(** The batched bracket in the spec's words: the 2D periodic bracket applied
    to each slice of the stack on its own. *)
Fixpoint periodic_arakawa_slices (zeta psi : arr3) (d : Q) : result arr3 :=
  match zeta, psi with
  | zk :: zeta', pk :: psi' =>
      r <- periodic_arakawa zk pk d ;;
      rest <- periodic_arakawa_slices zeta' psi' d ;;
      Ok (r :: rest)
  | _, _ => Ok []
  end.

Definition q (n : Z) : Q := inject_Z n.

Example stack_zeta : arr3 :=
  [[[q 1; q 2; q 0]; [q 0; q 1; q 3]; [q 2; q 0; q 1]]].

Example stack_psi : arr3 :=
  [[[q 0; q 1; q 0]; [q 2; q 0; q 1]; [q 1; q 3; q 0]]].

(** ** Fields and the hyperdiffusion operator *)

(** A [CenteredGrid]: [rank] spatial axes, samples in [data] of shape
    [(batch, spatial..., 1)]. *)
Record Field : Type := mkField {
  rank : nat;
  data : tensor (S (S rank))
}.

Fixpoint tmap (r : nat) (f : Q -> Q) : tensor r -> tensor r :=
  match r return tensor r -> tensor r with
  | O => f
  | S k => map (tmap k f)
  end.

Fixpoint tzip (r : nat) (f : Q -> Q -> Q) : tensor r -> tensor r -> tensor r :=
  match r return tensor r -> tensor r -> tensor r with
  | O => f
  | S k => zipWith (tzip k f)
  end.

(** Every sample of the array satisfies [P]. *)
Fixpoint tall (r : nat) (P : Q -> Prop) : tensor r -> Prop :=
  match r return tensor r -> Prop with
  | O => P
  | S k => Forall (tall k P)
  end.

(** [a[0]]. *)
Definition item0 {A} (a : list A) : result A :=
  match a with
  | [] => Raise IndexError
  | x :: _ => Ok x
  end.

(** [a[..., 0]]. *)
Fixpoint chan0 (r : nat) : tensor (S r) -> result (tensor r) :=
  match r return tensor (S r) -> result (tensor r) with
  | O => fun a => item0 a
  | S k => fun a => mapM (chan0 k) a
  end.

(** [field.data[0, ..., 0]]: the samples of the first batch entry. *)
Definition data_0__0 (field : Field) : result (tensor (rank field)) :=
  a <- item0 (data field) ;; chan0 (rank field) a.

(** What [diffuse] returns: the Python number [nu * 0], or an array. *)
Inductive value (r : nat) : Type :=
| Num (x : Q)
| Arr (a : tensor r).

Arguments Num {r} x.

Arguments Arr {r} a.

Section Diffuse.
(** [math.nd.laplace(tensor)] with its default arguments, from the
    framework's math package. *)
Variable nd_laplace : forall r : nat, tensor r -> tensor r.

(** The body of [for _ in range(N)], run [n] times.  The name [axes] is
    bound nowhere in the module, so evaluating the arguments of the
    rank-3 call raises [NameError]. *)
Fixpoint diffuse_loop (r : nat) (n : nat) (ret_field : tensor r)
  : result (tensor r) :=
  match n with
  | O => Ok ret_field
  | S n' =>
      ret_field' <- (if (r =? 3)%nat then Raise (NameError "axes")
                     else Ok (nd_laplace r ret_field)) ;;
      diffuse_loop r n' ret_field'
  end.

(** [diffuse(field, N=1, nu=1)].  [range(N)] is empty for [N <= 0]. *)
Definition diffuse (field : Field) (N : Z) (nu : Q)
  : result (value (rank field)) :=
  if (N =? 0)%Z then Ok (Num (nu * 0))
  else
    ret_field <- data_0__0 field ;;
    ret_field <- diffuse_loop (rank field) (Z.to_nat N) ret_field ;;
    Ok (Arr (tmap (rank field) (Qmult nu) ret_field)).

(** [N] successive applications of the Laplacian. *)
Fixpoint laplace_pow (r : nat) (n : nat) (a : tensor r) : tensor r :=
  match n with
  | O => a
  | S n' => laplace_pow r n' (nd_laplace r a)
  end.
End Diffuse.

(** Raw samples put back into a batch-1 field, as the step functions do with
    [copied_with(data=math.reshape(o, shape))]. *)
Fixpoint add_channel (r : nat) : tensor r -> tensor (S r) :=
  match r return tensor r -> tensor (S r) with
  | O => fun x => [x]
  | S k => map (add_channel k)
  end.

Definition as_field (r : nat) (a : tensor r) : Field :=
  mkField r [add_channel r a].

(** [diffuse(diffuse(f, N1), N2)] with the default [nu = 1]: the array
    returned by the inner call is put back into a field.  The number returned
    for [N1 = 0] has no samples to reshape into the field's shape. *)
Definition diffuse_twice (nd_laplace : forall r : nat, tensor r -> tensor r)
           (f : Field) (N1 N2 : Z) : result (value (rank f)) :=
  v <- diffuse nd_laplace f N1 1 ;;
  match v return result (value (rank f)) with
  | Arr a => diffuse nd_laplace (as_field (rank f) a) N2 1
  | Num _ => Raise ValueError
  end.

(** Numerical equality of two returned values in exact arithmetic; a number
    stands for the array filled with it (numpy broadcasting). *)
Fixpoint tensor_eq (r : nat) : tensor r -> tensor r -> Prop :=
  match r return tensor r -> tensor r -> Prop with
  | O => Qeq
  | S k => Forall2 (tensor_eq k)
  end.

Definition value_eq {r : nat} (v w : value r) : Prop :=
  match v, w with
  | Num x, Num y => x == y
  | Arr a, Arr b => tensor_eq r a b
  | Num x, Arr a | Arr a, Num x => tall r (fun y => y == x) a
  end.

Definition result_rel {A} (R : A -> A -> Prop) (m1 m2 : result A) : Prop :=
  match m1, m2 with
  | Ok a, Ok b => R a b
  | Raise e1, Raise e2 => e1 = e2
  | _, _ => False
  end.

(** Modelled from the spec: the framework's Laplacian [math.nd.laplace] is
    not part of plasma.py.  Following the spec's finite-difference operator,
    it is the sum over all axes of the central second difference
    [a[i+1] - 2 a[i] + a[i-1]] with periodic index wrap. *)
Definition roll_next {A} (l : list A) : list A :=
  match l with
  | [] => []
  | x :: t => t ++ [x]
  end.

Definition roll_prev {A} (l : list A) : list A :=
  match l with
  | [] => []
  | x :: _ => last l x :: removelast l
  end.

Fixpoint laplace_wrap (r : nat) : tensor r -> tensor r :=
  match r return tensor r -> tensor r with
  | O => fun _ => 0
  | S k => fun a =>
      tzip (S k) Qplus
        (tzip (S k) Qplus
           (tzip (S k) Qminus (roll_next a) (tmap (S k) (Qmult 2) a))
           (roll_prev a))
        (map (laplace_wrap k) a)
  end.

Example field2 : Field :=
  mkField 2 [[[[q 1]; [q 0]; [q 0]]; [[q 0]; [q 0]; [q 0]]; [[q 0]; [q 0]; [q 0]]]].

Example field3 : Field :=
  mkField 3 [[[[[q 1]; [q 0]]; [[q 0]; [q 0]]]; [[[q 0]; [q 0]]; [[q 0]; [q 0]]]]].

(** ** Plasma state and the step engine *)

(** Samples of a field with [r] spatial axes: shape [(batch, spatial..., 1)]. *)
Definition grid (r : nat) : Type := tensor (S (S r)).

(** [PlasmaHW] on a domain with [r] spatial axes. *)
Record PlasmaHW (r : nat) : Type := mkPlasma {
  density : grid r;
  phi : grid r;
  omega : grid r;
  nu : Q;
  age : Q;
  laplace_phi : grid r;
  laplace_n : grid r
}.

Arguments mkPlasma {r}.

Arguments density {r}.

Arguments phi {r}.

Arguments omega {r}.

Arguments nu {r}.

Arguments age {r}.

Arguments laplace_phi {r}.

Arguments laplace_n {r}.

(** [plasma.copied_with(density=.., omega=.., phi=.., age=..)]. *)
Definition copied_with {r} (plasma : PlasmaHW r) (density' omega' phi' : grid r)
           (age' : Q) : PlasmaHW r :=
  mkPlasma density' phi' omega' (nu plasma) age'
           (laplace_phi plasma) (laplace_n plasma).

(** [np.sum], the number of samples, and [math.mean]. *)
Fixpoint tsum (r : nat) : tensor r -> Q :=
  match r return tensor r -> Q with
  | O => fun x => x
  | S k => fun a => fold_right (fun s acc => tsum k s + acc) 0 a
  end.

Fixpoint tsize (r : nat) : tensor r -> nat :=
  match r return tensor r -> nat with
  | O => fun _ => 1%nat
  | S k => fun a => fold_right (fun s acc => (tsize k s + acc)%nat) 0%nat a
  end.

Definition mean (r : nat) (a : tensor r) : Q :=
  tsum r a / inject_Z (Z.of_nat (tsize r a)).

(** [euler(x, dx, dt) = x + dx * dt] on the samples of two fields. *)
Definition euler {r} (x dx : tensor r) (dt : Q) : tensor r :=
  tzip r Qplus x (tmap r (fun v => v * dt) dx).

(** [math.reshape(a, [-1] + list(a.shape[2:]))]: the first spatial axis is
    folded into the batch axis. *)
Definition fold_batch {r} (a : grid (S r)) : grid r := concat a.

(** [math.reshape(a, shape)] back to the shape of [like]: the batch axis is
    cut again into rows as long as those of [like].  numpy raises when the
    number of entries does not fit. *)
Fixpoint unfold_batch {A B} (like : list (list B)) (a : list A)
  : result (list (list A)) :=
  match like with
  | [] => match a with [] => Ok [] | _ :: _ => Raise ValueError end
  | row :: like' =>
      if (length a <? length row)%nat then Raise ValueError
      else rest <- unfold_batch like' (skipn (length row) a) ;;
           Ok (firstn (length row) a :: rest)
  end.

(** Step results: the arguments handed to the Poisson solver so far, and the
    returned state or the exception raised. *)
Definition traced (A : Type) : Type := (list (grid 2) * result A)%type.

Definition ret {A} (a : A) : traced A := ([], Ok a).

Definition bindT {A B} (m : traced A) (k : A -> traced B) : traced B :=
  match m with
  | (calls, Ok a) => let (calls', b) := k a in (calls ++ calls', b)
  | (calls, Raise e) => (calls, Raise e)
  end.

Definition lift {A} (m : result A) : traced A := ([], m).

Notation "x <~ m ;; k" := (bindT m (fun x => k))
  (at level 61, m at next level, right associativity).

(** The physics object [HasegawaWakatani(kap, N)]. *)
Record HasegawaWakatani : Type := mkHW {
  kap : Q;
  N : Z
}.

Section Step.
(** Collaborators that are not part of plasma.py, taken as total functions.
    numpy values whose shape depends on the framework (gradient fields,
    broadcast sums) are kept abstract, with numpy's arithmetic on them.
    The timing and debug [print] calls of the step functions do not touch
    the returned state and are left out. *)
Variable ndarray : Type.
Variable np_of : forall r : nat, tensor r -> ndarray.
Variable np_num : Q -> ndarray.
Variable np_recip : Q -> ndarray.          (* [1 / np.sum(..)] *)
Variables np_add np_sub np_mul : ndarray -> ndarray -> ndarray.
(** [math.reshape(a, like.shape)]. *)
Variable np_reshape : forall r : nat, ndarray -> grid r -> result (grid r).
(** [SparseCG().solve(data, fluiddomain, guess=None)[0]]. *)
Variable poisson_solver_solve : grid 2 -> grid 2.
(** [field.gradient(difference='central', padding='wrap').unstack()],
    [field[0, 0, ...]] and [field.data] of the resulting fields. *)
Variable cgrid : Type.
Variable gradient : grid 2 -> cgrid * cgrid.
Variable getitem_0_0 : cgrid -> cgrid.
Variable cgrid_data : cgrid -> ndarray.
(** [field.laplace(axes=[0])] and
    [math.nd.laplace(a, axes=[0], padding='wrap')]. *)
Variable field_laplace_axis0 : grid 3 -> grid 3.
Variable nd_laplace_axis0 : tensor 4 -> tensor 4.
(** [math.nd.laplace(a)], as called by [diffuse]. *)
Variable nd_laplace : forall r : nat, tensor r -> tensor r.

Variable self : HasegawaWakatani.

Definition np_value {r} (v : value r) : ndarray :=
  match v with
  | Num x => np_num x
  | Arr a => np_of r a
  end.

(** [solve_poisson(omega2d, fluiddomain)]: one call of the solver, whose
    argument is recorded. *)
Definition solve_poisson (omega2d : grid 2) : traced (grid 2) :=
  ([omega2d], Ok (poisson_solver_solve omega2d)).

(** Python float division [a / b]. *)
Definition float_div (a b : Q) : result Q :=
  if Qeq_bool b 0 then Raise ZeroDivisionError else Ok (a / b).

Definition step2d (plasma : PlasmaHW 2) (dt : Q) : traced (PlasmaHW 2) :=
  let p2d := phi plasma in
  let o2d := omega plasma in
  let n2d := density plasma in
  let o2d := tmap 4 (fun x => x - mean 4 o2d) o2d in
  p2d <~ solve_poisson o2d ;;
  dzdz <~ lift (float_div (kap self) (nu plasma)) ;;
  let '(dy_o, dx_o) := gradient o2d in
  let '(dy_p, dx_p) := gradient p2d in
  let '(dy_n, dx_n) := gradient n2d in
  let dy_p := getitem_0_0 dy_p in
  let dx_n := getitem_0_0 dx_n in
  dif_o <~ lift (diffuse nd_laplace (mkField 2 o2d) (N self) 1) ;;
  dif_n <~ lift (diffuse nd_laplace (mkField 2 n2d) (N self) 1) ;;
  p0 <~ lift (data_0__0 (mkField 2 p2d)) ;;
  o0 <~ lift (data_0__0 (mkField 2 o2d)) ;;
  br_o <~ lift (periodic_arakawa p0 o0 1) ;;
  let o := np_add (np_sub (np_num dzdz) (np_of 2 br_o)) (np_value dif_o) in
  let kappa := np_mul (cgrid_data dx_n) (np_recip (tsum 4 n2d)) in
  n0 <~ lift (data_0__0 (mkField 2 n2d)) ;;
  br_n <~ lift (periodic_arakawa p0 n0 1) ;;
  let n := np_add (np_sub (np_sub (np_num dzdz) (np_of 2 br_n))
                          (np_mul kappa (cgrid_data dy_p)))
                  (np_value dif_n) in
  let p2d' := euler p2d p2d dt in
  o_dt <~ lift (np_reshape 2 o (phi plasma)) ;;
  let o2d' := euler o2d o_dt dt in
  n_dt <~ lift (np_reshape 2 n (phi plasma)) ;;
  let n2d' := euler n2d n_dt dt in
  ret (copied_with plasma n2d' o2d' p2d' (age plasma + dt)).

Definition step3d (plasma : PlasmaHW 3) (dt : Q) : traced (PlasmaHW 3) :=
  let p3d := phi plasma in
  let o3d := omega plasma in
  let n3d := density plasma in
  let o2d : grid 2 := fold_batch o3d in
  let n2d : grid 2 := fold_batch n3d in
  p2d <~ solve_poisson o2d ;;
  p3d <~ lift (unfold_batch o3d p2d) ;;
  dzdz <~ lift (chan0 4 (field_laplace_axis0 (tzip 5 Qminus n3d p3d))) ;;
  p3 <~ lift (chan0 4 p3d) ;;
  laplace_phi' <~ lift (np_reshape 3 (np_of 4 (nd_laplace_axis0 p3)) o3d) ;;
  n3 <~ lift (chan0 4 n3d) ;;
  laplace_n' <~ lift (np_reshape 3 (np_of 4 (nd_laplace_axis0 n3)) o3d) ;;
  let '(dy_o, dx_o) := gradient o2d in
  let '(dy_p, dx_p) := gradient p2d in
  let '(dy_n, dx_n) := gradient n2d in
  dif_o <~ lift (diffuse nd_laplace (mkField 3 o3d) (N self) 1) ;;
  dif_n <~ lift (diffuse nd_laplace (mkField 3 n3d) (N self) 1) ;;
  inv_nu <~ lift (float_div 1 (nu plasma)) ;;
  p2 <~ lift (chan0 3 p2d) ;;
  o2 <~ lift (chan0 3 o2d) ;;
  br_o <~ lift (periodic_arakawa_3d p2 o2 1) ;;
  let o := np_add (np_sub (np_mul (np_num inv_nu) (np_of 4 dzdz))
                          (np_of 3 br_o))
                  (np_value dif_o) in
  let kappa := np_mul (cgrid_data dx_n) (np_recip (tsum 4 n2d)) in
  n2 <~ lift (chan0 3 n2d) ;;
  br_n <~ lift (periodic_arakawa_3d p2 n2 1) ;;
  let n := np_add (np_sub (np_sub (np_mul (np_num inv_nu) (np_of 4 dzdz))
                                  (np_of 3 br_n))
                          (np_mul kappa (cgrid_data dy_p)))
                  (np_value dif_n) in
  p_dt <~ lift (unfold_batch o3d p2d) ;;
  let p3d' := euler (r := 5) p3d p_dt dt in
  o_dt <~ lift (np_reshape 3 o o3d) ;;
  let o3d' := euler o3d o_dt dt in
  n_dt <~ lift (np_reshape 3 n o3d) ;;
  let n3d' := euler n3d n_dt dt in
  ret (mkPlasma n3d' p3d' o3d' (nu plasma) (age plasma + dt)
                laplace_phi' laplace_n').

(** [step]: [if self.kap:] selects the 2D path.  Each path is modelled on
    the field rank its array code is written for. *)
Definition step (r : nat) : PlasmaHW r -> Q -> traced (PlasmaHW r) :=
  if Qeq_bool (kap self) 0
  then match r return PlasmaHW r -> Q -> traced (PlasmaHW r) with
       | 3%nat => step3d
       | _ => fun _ _ => lift (Raise NotModelled)
       end
  else match r return PlasmaHW r -> Q -> traced (PlasmaHW r) with
       | 2%nat => step2d
       | _ => fun _ _ => lift (Raise NotModelled)
       end.
End Step.

(** The vorticity of the 2D path after [o2d -= math.mean(o2d.data)]. *)
Definition zero_mean_omega (plasma : PlasmaHW 2) : grid 2 :=
  tmap 4 (fun x => x - mean 4 (omega plasma)) (omega plasma).

(** ** Sample states and stand-ins for the collaborators *)

Definition stub_reshape (r : nat) (_ : unit) (like : grid r)
  : result (grid r) := Ok like.

Example grid2_delta : grid 2 :=
  [[[[q 1]; [q 0]; [q 0]]; [[q 0]; [q 0]; [q 0]]; [[q 0]; [q 0]; [q 0]]]].

Example grid2_ramp : grid 2 :=
  [[[[q 1]; [q 2]; [q 0]]; [[q 0]; [q 1]; [q 3]]; [[q 2]; [q 0]; [q 1]]]].

Example grid3_zero : grid 3 :=
  [[[[[q 0]; [q 0]]; [[q 0]; [q 0]]]; [[[q 0]; [q 0]]; [[q 0]; [q 0]]]]].

Example plasma2 : PlasmaHW 2 :=
  mkPlasma grid2_ramp grid2_delta grid2_delta 1 0 grid2_ramp grid2_ramp.

Example plasma3_zero : PlasmaHW 3 :=
  mkPlasma grid3_zero grid3_zero grid3_zero 1 0 grid3_zero grid3_zero.

(** The 2D path and the 3D path with stand-ins: an identity solver, the
    periodic Laplacian, and shape-preserving reshapes. *)
Definition step2d_stub (self : HasegawaWakatani) :=
  step2d unit (fun _ _ => tt) (fun _ => tt) (fun _ => tt)
         (fun _ _ => tt) (fun _ _ => tt) (fun _ _ => tt)
         stub_reshape (fun o => o) unit (fun _ => (tt, tt)) (fun c => c)
         (fun _ => tt) laplace_wrap self.

Definition step3d_stub (self : HasegawaWakatani) :=
  step3d unit (fun _ _ => tt) (fun _ => tt) (fun _ => tt)
         (fun _ _ => tt) (fun _ _ => tt) (fun _ _ => tt)
         stub_reshape (fun o => o) unit (fun _ => (tt, tt))
         (fun _ => tt) (fun a => a) (laplace_wrap 4) laplace_wrap self.

(** ** Instances on sample inputs *)

Example zeta33 : arr2 := [[q 1; q 2; q 0]; [q 0; q 1; q 3]; [q 2; q 0; q 1]].

Example psi33 : arr2 := [[q 0; q 1; q 0]; [q 2; q 0; q 1]; [q 1; q 3; q 0]].

(** The state [s] with other diagnostic fields. *)
Definition with_diagnostics {r} (s : PlasmaHW r) (lp ln : grid r) : PlasmaHW r :=
  mkPlasma (density s) (phi s) (omega s) (nu s) (age s) lp ln.

(** Two step results agree on the solver calls and on the dynamical part
    of the returned state (or on the exception raised). *)
Definition same_dynamics {r} (t1 t2 : traced (PlasmaHW r)) : Prop :=
  fst t1 = fst t2 /\
  match snd t1, snd t2 with
  | Ok s1, Ok s2 =>
      density s1 = density s2 /\ omega s1 = omega s2 /\ phi s1 = phi s2 /\
      age s1 = age s2
  | Raise e1, Raise e2 => e1 = e2
  | _, _ => False
  end.

(** The value of [a] at offset [(di, dj)] from cell [(i, j)] of an [(H, W)]
    grid, with periodic index wrap. *)
Definition wrapped_at (H W : nat) (a : arr2) (i j : nat) (di dj : Z) : Q :=
  get2 a ((i + Z.to_nat (1 + di) + H - 1) mod H)
         ((j + Z.to_nat (1 + dj) + W - 1) mod W).

(** The [(H, W)] array filled with [c]. *)
Definition full2 (H W : nat) (c : Q) : arr2 := repeat (repeat c W) H.

(** Two arrays of the same shape. *)
Fixpoint same_shape (r : nat) : tensor r -> tensor r -> Prop :=
  match r return tensor r -> tensor r -> Prop with
  | O => fun _ _ => True
  | S k => Forall2 (same_shape k)
  end.

Example grid3_ramp : grid 3 :=
  [[[[[q 1]; [q 2]]; [[q 0]; [q 1]]]; [[[q 3]; [q 0]]; [[q 1]; [q 2]]]]].

Example plasma3 : PlasmaHW 3 :=
  mkPlasma grid3_ramp grid3_zero grid3_ramp 1 0 grid3_zero grid3_zero.

Definition step_stub (self : HasegawaWakatani) :=
  step unit (fun _ _ => tt) (fun _ => tt) (fun _ => tt)
       (fun _ _ => tt) (fun _ _ => tt) (fun _ _ => tt)
       stub_reshape (fun o => o) unit (fun _ => (tt, tt)) (fun c => c)
       (fun _ => tt) (fun a => a) (laplace_wrap 4) laplace_wrap self.

(** * Properties *)

(** ** Lists, slices and element-wise operations *)

Section ListFacts.
Context {A B C : Type}.

Lemma take_slice_length (s : slice) (l : list A) (n : nat) :
  length l = (n + 2)%nat -> length (take_slice s l) = n.
Proof.
  intros Hl. destruct s; unfold take_slice.
  - rewrite length_firstn. lia.
  - rewrite length_firstn, length_skipn. lia.
  - rewrite length_skipn. lia.
Qed.

Lemma take_slice_nth (s : slice) (l : list A) (n i : nat) (d : A) :
  length l = (n + 2)%nat -> (i < n)%nat ->
  nth i (take_slice s l) d = nth (i + slice_off s) l d.
Proof.
  intros Hl Hi. destruct s; unfold take_slice, slice_off.
  - rewrite nth_firstn.
    replace (i <? length l - 2)%nat with true
      by (symmetry; apply Nat.ltb_lt; lia).
    f_equal. lia.
  - rewrite nth_firstn.
    replace (i <? length l - 2)%nat with true
      by (symmetry; apply Nat.ltb_lt; lia).
    rewrite nth_skipn. f_equal. lia.
  - rewrite nth_skipn. f_equal. lia.
Qed.

Lemma In_firstn (n : nat) (l : list A) (x : A) :
  In x (firstn n l) -> In x l.
Proof.
  intros Hx. rewrite <- (firstn_skipn n l). apply in_or_app. now left.
Qed.

Lemma In_skipn (n : nat) (l : list A) (x : A) :
  In x (skipn n l) -> In x l.
Proof.
  intros Hx. rewrite <- (firstn_skipn n l). apply in_or_app. now right.
Qed.

Lemma take_slice_In (s : slice) (l : list A) (x : A) :
  In x (take_slice s l) -> In x l.
Proof.
  destruct s; unfold take_slice; intros Hx.
  - eapply In_firstn; eauto.
  - eapply In_skipn, In_firstn; eauto.
  - eapply In_skipn; eauto.
Qed.

Lemma map_nth_lt (f : A -> B) (l : list A) (i : nat) (d : A) (d' : B) :
  (i < length l)%nat -> nth i (map f l) d' = f (nth i l d).
Proof.
  intros Hi. rewrite (nth_indep (map f l) d' (f d)).
  - apply map_nth.
  - now rewrite length_map.
Qed.

Lemma zipWith_length (f : A -> B -> C) (l : list A) (m : list B) :
  length (zipWith f l m) = Nat.min (length l) (length m).
Proof.
  revert m. induction l as [|x l IH]; intros [|y m]; simpl; auto.
Qed.

Lemma zipWith_nth (f : A -> B -> C) (l : list A) (m : list B)
      (i : nat) (da : A) (db : B) (dc : C) :
  (i < length l)%nat -> (i < length m)%nat ->
  nth i (zipWith f l m) dc = f (nth i l da) (nth i m db).
Proof.
  revert m i. induction l as [|x l IH]; intros [|y m] [|i]; simpl;
    intros; try lia; auto.
  apply IH; lia.
Qed.
End ListFacts.

Lemma shape2_row (H W : nat) (a : arr2) (i : nat) :
  shape2 H W a -> (i < H)%nat -> length (nth i a []) = W.
Proof.
  intros [Hl Hr] Hi. rewrite Forall_forall in Hr.
  apply Hr. apply nth_In. lia.
Qed.

Lemma tabulates_sl2 (H W : nat) (r c : slice) (a : arr2) :
  shape2 (H + 2) (W + 2) a ->
  tabulates H W (sl2 r c a)
            (fun i j => get2 a (i + slice_off r) (j + slice_off c)).
Proof.
  intros Ha. pose proof Ha as [Hl Hr]. split; [split|].
  - unfold sl2. rewrite length_map. now apply take_slice_length.
  - unfold sl2. apply Forall_map. rewrite Forall_forall. intros x Hx.
    apply take_slice_length. rewrite Forall_forall in Hr. apply Hr.
    eapply take_slice_In; eauto.
  - intros i j Hi Hj. unfold get2, sl2.
    assert (Hn : length (take_slice r a) = H) by now apply take_slice_length.
    rewrite (map_nth_lt _ _ _ []) by lia.
    rewrite (take_slice_nth r a H i []) by assumption.
    apply (take_slice_nth c _ W); [|assumption].
    apply (shape2_row (H + 2) (W + 2)); [assumption|]. destruct r; simpl; lia.
Qed.

Lemma tabulates_ew2 (H W : nat) (f : Q -> Q -> Q) (a b : arr2)
      (ga gb : nat -> nat -> Q) :
  tabulates H W a ga -> tabulates H W b gb ->
  tabulates H W (ew2 f a b) (fun i j => f (ga i j) (gb i j)).
Proof.
  intros [[Hla Hra] Ha] [[Hlb Hrb] Hb].
  assert (Hrow : forall i, (i < H)%nat ->
            nth i (ew2 f a b) [] = zipWith f (nth i a []) (nth i b [])).
  { intros i Hi. unfold ew2. apply zipWith_nth; lia. }
  split; [split|].
  - unfold ew2. rewrite zipWith_length. lia.
  - rewrite Forall_forall. intros x Hx.
    destruct (In_nth _ _ [] Hx) as [i [Hi Hxi]]. subst x.
    unfold ew2 in Hi. rewrite zipWith_length in Hi.
    rewrite Hrow by lia. rewrite zipWith_length.
    rewrite (shape2_row H W a), (shape2_row H W b); try lia; split; auto.
  - intros i j Hi Hj. unfold get2. rewrite Hrow by assumption.
    rewrite <- Ha, <- Hb by assumption. unfold get2.
    apply zipWith_nth.
    + rewrite (shape2_row H W a); try lia; split; auto.
    + rewrite (shape2_row H W b); try lia; split; auto.
Qed.

Lemma tabulates_divs2 (H W : nat) (a : arr2) (c : Q) (g : nat -> nat -> Q) :
  tabulates H W a g -> tabulates H W (divs2 a c) (fun i j => g i j / c).
Proof.
  intros [[Hl Hr] Ha]. split; [split|].
  - unfold divs2. now rewrite length_map.
  - unfold divs2. apply Forall_map. rewrite Forall_forall in *.
    intros x Hx. rewrite length_map. auto.
  - intros i j Hi Hj. rewrite <- Ha by assumption. unfold get2, divs2.
    rewrite (map_nth_lt _ _ _ []) by lia.
    apply (map_nth_lt (fun x => x / c)).
    rewrite (shape2_row H W a); try lia; split; auto.
Qed.

Lemma arakawa_vec_tabulates (H W : nat) (zeta psi : arr2) (d : Q) :
  shape2 (H + 2) (W + 2) zeta -> shape2 (H + 2) (W + 2) psi ->
  tabulates H W (arakawa_vec zeta psi d)
    (fun i j => arakawa_kernel (padded_at zeta i j) (padded_at psi i j)
                / (4 * d ^ 2)).
Proof.
  intros Hz Hp.
  eassert (T : tabulates H W (arakawa_vec zeta psi d) _).
  { unfold arakawa_vec, add2, sub2, mul2.
    repeat first [ apply tabulates_divs2
                 | apply tabulates_ew2
                 | apply tabulates_sl2; assumption ]. }
  exact T.
Qed.

Lemma wrap1_pad1 {A} (d : A) (l : list A) :
  l <> [] -> wrap1 l = Ok (pad1 d l).
Proof.
  destruct l as [|x l]; [congruence|]. intros _. unfold wrap1, pad1.
  do 2 f_equal. clear. revert x. induction l as [|y l IH]; intros x; auto.
  simpl in *. destruct l; auto.
Qed.

Lemma pad1_length {A} (d : A) (l : list A) :
  length (pad1 d l) = (length l + 2)%nat.
Proof. unfold pad1. simpl. rewrite length_app. simpl. lia. Qed.

Lemma last_nth {A} (d : A) (l : list A) :
  last l d = nth (length l - 1) l d.
Proof.
  induction l as [|x l IH]; auto.
  destruct l as [|y l]; auto.
  change (last (x :: y :: l) d) with (last (y :: l) d). rewrite IH.
  simpl. now rewrite Nat.sub_0_r.
Qed.

(** Index [i] of the padded axis reads index [(i - 1) mod n] of the
    original one. *)
Lemma pad1_nth {A} (d : A) (l : list A) (i : nat) :
  l <> [] -> (i < length l + 2)%nat ->
  nth i (pad1 d l) d = nth ((i + length l - 1) mod length l) l d.
Proof.
  intros Hne Hi.
  assert (Hn : (0 < length l)%nat) by (destruct l; [congruence | simpl; lia]).
  assert (Hidx : ((i + length l - 1) mod length l =
                  if (i =? 0)%nat then length l - 1
                  else if (i =? length l + 1)%nat then 0 else i - 1)%nat).
  { destruct (Nat.eqb_spec i 0) as [->|H0].
    - apply Nat.mod_small. lia.
    - destruct (Nat.eqb_spec i (length l + 1)) as [->|H1].
      + replace (length l + 1 + length l - 1)%nat
          with (0 + 2 * length l)%nat by lia.
        rewrite Nat.Div0.mod_add. apply Nat.mod_small. lia.
      + replace (i + length l - 1)%nat with (i - 1 + 1 * length l)%nat by lia.
        rewrite Nat.Div0.mod_add. apply Nat.mod_small. lia. }
  rewrite Hidx. unfold pad1. destruct i as [|i].
  - simpl. apply last_nth.
  - change (nth (S i) (last l d :: l ++ [hd d l]) d)
      with (nth i (l ++ [hd d l]) d).
    destruct (Nat.eqb_spec (S i) 0); [lia|].
    destruct (Nat.eqb_spec (S i) (length l + 1)) as [E|E].
    + rewrite app_nth2 by lia.
      replace (i - length l)%nat with 0%nat by lia. simpl. now destruct l.
    + rewrite app_nth1 by lia. f_equal. lia.
Qed.

Lemma mapM_Ok {A B} (f : A -> result B) (g : A -> B) (l : list A) :
  Forall (fun x => f x = Ok (g x)) l -> mapM f l = Ok (map g l).
Proof.
  induction 1 as [|x l Hx _ IH]; simpl; auto.
  now rewrite Hx, IH.
Qed.

Lemma periodic_padding_row (r : list Q) :
  r <> [] -> periodic_padding 1 r = Ok (pad1 0 r).
Proof.
  intros Hne. simpl.
  rewrite (mapM_Ok _ (fun q => q)), map_id.
  - simpl. now apply wrap1_pad1.
  - apply Forall_forall. auto.
Qed.

Lemma periodic_padding_2 (H W : nat) (a : arr2) :
  shape2 H W a -> (1 <= H)%nat -> (1 <= W)%nat ->
  periodic_padding 2 a = Ok (pad1 [] (map (pad1 0) a)).
Proof.
  intros [Hl Hr] HH HW.
  change (periodic_padding 2 a)
    with (rows <- mapM (periodic_padding 1) a ;; wrap1 rows).
  rewrite (mapM_Ok _ (pad1 0)).
  - simpl. apply wrap1_pad1. destruct a; simpl in *; [lia | congruence].
  - eapply Forall_impl; [|exact Hr]. intros r Hlen.
    apply periodic_padding_row. destruct r; simpl in *; [lia | congruence].
Qed.

(** An empty axis makes the padding, hence the bracket, fail. *)
Lemma periodic_padding_2_empty (H W : nat) (a : arr2) :
  shape2 H W a -> (H = 0 \/ W = 0)%nat ->
  periodic_padding 2 a = Raise ValueError.
Proof.
  intros [Hl Hr] HW.
  change (periodic_padding 2 a)
    with (rows <- mapM (periodic_padding 1) a ;; wrap1 rows).
  destruct a as [|r a]; [reflexivity|].
  destruct HW as [->| ->]; [discriminate|].
  inversion Hr as [|? ? Hr0 _]; subst. destruct r; [|discriminate].
  reflexivity.
Qed.

Lemma pad2_shape (H W : nat) (a : arr2) :
  shape2 H W a -> (1 <= H)%nat ->
  shape2 (H + 2) (W + 2) (pad1 [] (map (pad1 0) a)).
Proof.
  intros [Hl Hr] HH. split.
  - now rewrite pad1_length, length_map, Hl.
  - assert (Hm : Forall (fun r => length r = (W + 2)%nat) (map (pad1 0) a)).
    { apply Forall_map. eapply Forall_impl; [|exact Hr].
      intros r Hlen. cbv beta. now rewrite pad1_length, Hlen. }
    unfold pad1 at 1. constructor; [|apply Forall_app; split].
    + rewrite last_nth. destruct a as [|r a]; [simpl in *; lia|].
      rewrite Forall_forall in Hm. apply Hm, nth_In. simpl. lia.
    + exact Hm.
    + constructor; [|constructor]. destruct a; [simpl in *; lia|].
      now inversion Hm.
Qed.

Lemma periodic_arakawa_Ok (H W : nat) (a b : arr2) (d : Q) :
  shape2 H W a -> shape2 H W b -> (1 <= H)%nat -> (1 <= W)%nat ->
  periodic_arakawa a b d = Ok (arakawa_vec (pad2 a) (pad2 b) d).
Proof.
  intros Ha Hb HH HW. unfold periodic_arakawa.
  rewrite (periodic_padding_2 H W a), (periodic_padding_2 H W b) by assumption.
  reflexivity.
Qed.

Lemma periodic_arakawa_tabulates (H W : nat) (a b : arr2) (d : Q) :
  shape2 H W a -> shape2 H W b -> (1 <= H)%nat -> (1 <= W)%nat ->
  tabulates H W (arakawa_vec (pad2 a) (pad2 b) d)
    (fun i j => arakawa_kernel (padded_at (pad2 a) i j) (padded_at (pad2 b) i j)
                / (4 * d ^ 2)).
Proof.
  intros Ha Hb HH HW. apply arakawa_vec_tabulates; now apply pad2_shape.
Qed.

(** ** Sample-wise equality from index-wise equality *)

Lemma Forall2_of_nth {A B} (R : A -> B -> Prop) (da : A) (db : B)
      (l : list A) (m : list B) :
  length l = length m ->
  (forall i, (i < length l)%nat -> R (nth i l da) (nth i m db)) ->
  Forall2 R l m.
Proof.
  revert m. induction l as [|x l IH]; intros [|y m] Hlen Hnth;
    simpl in Hlen; try discriminate; constructor.
  - apply (Hnth 0%nat). simpl. lia.
  - apply IH; [lia|]. intros i Hi. apply (Hnth (S i)). simpl. lia.
Qed.

Lemma arr2_eq_of_tabulates (H W : nat) (a b : arr2) (ga gb : nat -> nat -> Q) :
  tabulates H W a ga -> tabulates H W b gb ->
  (forall i j, (i < H)%nat -> (j < W)%nat -> ga i j == gb i j) ->
  arr2_eq a b.
Proof.
  intros [Sa Ga] [Sb Gb] Hg. pose proof Sa as [La _]. pose proof Sb as [Lb _].
  apply (Forall2_of_nth _ [] []); [lia|]. intros i Hi.
  apply (Forall2_of_nth _ 0 0).
  - rewrite (shape2_row H W a), (shape2_row H W b); auto; lia.
  - intros j Hj. rewrite (shape2_row H W a) in Hj by (auto; lia).
    change (get2 a i j == get2 b i j).
    rewrite Ga, Gb by lia. apply Hg; lia.
Qed.

Lemma tabulates_neg2 (H W : nat) (a : arr2) (g : nat -> nat -> Q) :
  tabulates H W a g -> tabulates H W (neg2 a) (fun i j => - g i j).
Proof.
  intros [[Hl Hr] Ha]. split; [split|].
  - unfold neg2. now rewrite length_map.
  - unfold neg2. apply Forall_map. rewrite Forall_forall in *.
    intros x Hx. rewrite length_map. auto.
  - intros i j Hi Hj. rewrite <- Ha by assumption. unfold get2, neg2.
    rewrite (map_nth_lt _ _ _ []) by lia.
    apply (map_nth_lt Qopp).
    rewrite (shape2_row H W a); try lia; split; auto.
Qed.

(** The stencil combination is antisymmetric in its two arguments. *)
Lemma arakawa_kernel_antisym (z p : Z -> Z -> Q) :
  arakawa_kernel z p == - arakawa_kernel p z.
Proof. unfold arakawa_kernel. ring. Qed.

Lemma arakawa_kernel_diag (z : Z -> Z -> Q) : arakawa_kernel z z == 0.
Proof. unfold arakawa_kernel. ring. Qed.

(** ** Claims about the bracket *)

(** C5: on inputs of shape [(H+2, W+2)], [arakawa_vec] returns an array of
    shape [(H, W)] whose entry [(i, j)] is the 8-term Arakawa combination of
    the neighbours of the padded cell [(i+1, j+1)], divided by [4 * d^2];
    and [periodic_arakawa] on [(H, W)] inputs of a non-empty grid returns an
    [(H, W)] array. *)
Theorem arakawa_vec_stencil_shape (H W : nat) (zeta psi : arr2) (d : Q) :
  shape2 (H + 2) (W + 2) zeta -> shape2 (H + 2) (W + 2) psi ->
  shape2 H W (arakawa_vec zeta psi d) /\
  (forall i j, (i < H)%nat -> (j < W)%nat ->
     get2 (arakawa_vec zeta psi d) i j =
     arakawa_kernel (padded_at zeta i j) (padded_at psi i j) / (4 * d ^ 2)) /\
  (forall a b, shape2 H W a -> shape2 H W b -> (1 <= H)%nat -> (1 <= W)%nat ->
     exists r, periodic_arakawa a b d = Ok r /\ shape2 H W r).
Proof.
  intros Hz Hp.
  destruct (arakawa_vec_tabulates H W zeta psi d Hz Hp) as [Hs Hg].
  split; [exact Hs|]. split; [exact Hg|].
  intros a b Ha Hb HH HW. eexists. split.
  - now apply (periodic_arakawa_Ok H W).
  - now apply (periodic_arakawa_tabulates H W).
Qed.

(** C6: for same-shaped [a] and [b] and a non-zero spacing, the periodic
    bracket satisfies [bracket(a, b) = -bracket(b, a)] sample by sample, and
    [bracket(a, a)] is zero everywhere.  On an empty grid both sides raise. *)
Theorem periodic_arakawa_antisymmetric (H W : nat) (a b : arr2) (d : Q) :
  shape2 H W a -> shape2 H W b -> ~ d == 0 ->
  match periodic_arakawa a b d, periodic_arakawa b a d, periodic_arakawa a a d
  with
  | Ok ab, Ok ba, Ok aa =>
      arr2_eq ab (neg2 ba) /\
      shape2 H W aa /\ Forall (Forall (fun x => x == 0)) aa
  | Raise e1, Raise e2, Raise e3 => (H = 0 \/ W = 0)%nat
  | _, _, _ => False
  end.
Proof.
  intros Ha Hb Hd.
  destruct (Nat.eq_dec H 0) as [H0|H0]; [|destruct (Nat.eq_dec W 0) as [W0|W0]].
  - unfold periodic_arakawa.
    rewrite (periodic_padding_2_empty H W a), (periodic_padding_2_empty H W b)
      by auto.
    simpl. auto.
  - unfold periodic_arakawa.
    rewrite (periodic_padding_2_empty H W a), (periodic_padding_2_empty H W b)
      by auto.
    simpl. auto.
  - rewrite (periodic_arakawa_Ok H W a b), (periodic_arakawa_Ok H W b a),
      (periodic_arakawa_Ok H W a a) by (assumption || lia).
    pose proof (periodic_arakawa_tabulates H W a b d Ha Hb) as Tab.
    pose proof (periodic_arakawa_tabulates H W b a d Hb Ha) as Tba.
    pose proof (periodic_arakawa_tabulates H W a a d Ha Ha) as Taa.
    specialize (Tab ltac:(lia) ltac:(lia)).
    specialize (Tba ltac:(lia) ltac:(lia)).
    specialize (Taa ltac:(lia) ltac:(lia)).
    split; [|split].
    + eapply arr2_eq_of_tabulates;
        [exact Tab | apply tabulates_neg2; exact Tba |].
      intros i j _ _. cbv beta. rewrite arakawa_kernel_antisym.
      field. exact Hd.
    + apply Taa.
    + destruct Taa as [[Hl Hr] Hg].
      rewrite Forall_forall. intros row Hrow.
      destruct (In_nth _ _ [] Hrow) as [i [Hi <-]].
      rewrite Forall_forall. intros x Hx.
      destruct (In_nth _ _ 0 Hx) as [j [Hj <-]].
      rewrite (shape2_row H W) in Hj by (try split; auto; lia).
      change (get2 (arakawa_vec (pad2 a) (pad2 a) d) i j == 0).
      rewrite Hg by lia. rewrite arakawa_kernel_diag.
      unfold Qdiv. ring.
Qed.

(** C1 (evaluated on a one-slice stack of 3x3 arrays, [d = 1]): the batched
    bracket [periodic_arakawa_3d] and the slice-by-slice 2D bracket
    [periodic_arakawa] both return, their results have the same shape,
    but the samples differ: the batched path divides the stencil by 12, the
    2D path by 4. *)
Theorem periodic_arakawa_3d_vs_slices :
  exists r s,
    periodic_arakawa_3d stack_zeta stack_psi 1 = Ok r /\
    periodic_arakawa_slices stack_zeta stack_psi 1 = Ok s /\
    ~ arr3_eq r s /\
    arr3_eq (map (map (map (fun x => 3 * x))) r) s.
Proof.
  eexists. eexists. split; [vm_compute; reflexivity|].
  split; [vm_compute; reflexivity|]. split.
  - intros E. inversion E as [|? ? ? ? E1 _]; subst.
    inversion E1 as [|? ? ? ? E2 _]; subst.
    inversion E2 as [|? ? ? ? _ E3]; subst.
    inversion E3 as [|? ? ? ? E4 _]; subst.
    vm_compute in E4. discriminate E4.
  - repeat constructor.
Qed.

(** ** Facts about [diffuse] *)

Lemma chan0_add_channel (r : nat) (a : tensor r) :
  chan0 r (add_channel r a) = Ok a.
Proof.
  induction r as [|k IH]; [reflexivity|].
  simpl in a |- *. induction a as [|x a IHa]; [reflexivity|].
  simpl. now rewrite IH, IHa.
Qed.

Lemma data_0__0_as_field (r : nat) (a : tensor r) :
  data_0__0 (as_field r a) = Ok a.
Proof. unfold data_0__0, as_field. simpl. apply chan0_add_channel. Qed.

Lemma tmap_one (r : nat) (a : tensor r) : tmap r (Qmult 1) a = a.
Proof.
  induction r as [|k IH].
  - simpl in a |- *. destruct a as [n d]. unfold Qmult. simpl.
    now destruct n.
  - simpl in a |- *. induction a as [|x a IHa]; [reflexivity|].
    simpl. now rewrite IH, IHa.
Qed.

Section DiffuseFacts.
Variable L : forall r : nat, tensor r -> tensor r.

Lemma diffuse_loop_planar (r n : nat) (a : tensor r) :
  r <> 3%nat -> diffuse_loop L r n a = Ok (laplace_pow L r n a).
Proof.
  intros Hr. revert a. induction n as [|n IH]; intros a; [reflexivity|].
  simpl. destruct (Nat.eqb_spec r 3); [contradiction|]. simpl. apply IH.
Qed.

Lemma diffuse_loop_rank3 (n : nat) (a : tensor 3) :
  diffuse_loop L 3 (S n) a = Raise (NameError "axes").
Proof. reflexivity. Qed.

Lemma laplace_pow_add (r n m : nat) (a : tensor r) :
  laplace_pow L r (n + m) a = laplace_pow L r m (laplace_pow L r n a).
Proof.
  revert a. induction n as [|n IH]; intros a; [reflexivity|].
  simpl. apply IH.
Qed.

(** A field with no field-aligned axis: [N >= 1] applies the Laplacian [N]
    times to the first batch entry and scales by [nu]. *)
Lemma diffuse_planar (f : Field) (N : Z) (nu : Q) :
  rank f <> 3%nat -> (N <> 0)%Z ->
  diffuse L f N nu =
  (a <- data_0__0 f ;;
   Ok (Arr (tmap (rank f) (Qmult nu) (laplace_pow L (rank f) (Z.to_nat N) a)))).
Proof.
  intros Hr HN. unfold diffuse.
  destruct (Z.eqb_spec N 0); [contradiction|].
  destruct (data_0__0 f) as [a|e]; [|reflexivity].
  simpl. now rewrite diffuse_loop_planar.
Qed.

(** A field with a field-aligned axis: [N >= 1] never returns. *)
Lemma diffuse_rank3 (f : Field) (N : Z) (nu : Q) :
  rank f = 3%nat -> (1 <= N)%Z ->
  exists e, diffuse L f N nu = Raise e.
Proof.
  intros Hr HN. unfold diffuse.
  destruct (Z.eqb_spec N 0); [lia|].
  destruct (data_0__0 f) as [a|e]; [|now exists e].
  exists (NameError "axes"). simpl.
  destruct (Z.to_nat N) as [|k] eqn:En; [lia|].
  destruct f as [r d]. simpl in *. subst r. reflexivity.
Qed.
End DiffuseFacts.

(** ** Claims about [diffuse] *)

(** C3 (evaluated on a field with a field-aligned axis): whatever the
    Laplacian and the coefficient, [diffuse] of order [N >= 1] raises
    [NameError] on the unbound name [axes] instead of returning [nu] times
    the perpendicular Laplacian applied [N] times. *)
Theorem diffuse_field_aligned_NameError
        (L : forall r : nat, tensor r -> tensor r) (N : positive) (nu : Q) :
  diffuse L field3 (Z.pos N) nu = Raise (NameError "axes").
Proof.
  unfold diffuse. change (Z.pos N =? 0)%Z with false. cbv iota.
  change (data_0__0 field3)
    with (Ok (A := tensor 3) [[[q 1; q 0]; [q 0; q 0]]; [[q 0; q 0]; [q 0; q 0]]]).
  cbn [bind]. change (rank field3) with 3%nat.
  destruct (Pos2Nat.is_succ N) as [k Hk]. rewrite Z2Nat.inj_pos, Hk.
  reflexivity.
Qed.

(** C7, as stated, fails for [N1 = 1], [N2 = 0]: [diffuse(f, 1)] is the
    Laplacian of [f], which has non-zero samples, while
    [diffuse(diffuse(f, 1), 0)] is zero. *)
Lemma diffuse_composition_fails_at_order_0 :
  ~ result_rel value_eq
      (diffuse laplace_wrap field2 (1 + 0) 1)
      (diffuse_twice laplace_wrap field2 1 0).
Proof.
  vm_compute. intros E.
  inversion E as [|? ? E1 _]; subst.
  inversion E1 as [|? ? E2 _]; subst.
  discriminate E2.
Qed.

(** C7, amended: for orders [N1, N2 >= 1] (default [nu = 1]),
    [diffuse(f, N1 + N2)] equals [diffuse] of order [N2] applied to the
    field holding [diffuse(f, N1)]; and [diffuse(f, 0)] is the number zero
    for every [nu]. *)
Theorem diffuse_composition_positive_orders
        (L : forall r : nat, tensor r -> tensor r) (f : Field) (N1 N2 : Z) :
  (1 <= N1)%Z -> (1 <= N2)%Z ->
  diffuse L f (N1 + N2) 1 = diffuse_twice L f N1 N2 /\
  forall nu, exists z, diffuse L f 0 nu = Ok (Num z) /\ z == 0.
Proof.
  intros H1 H2. split.
  - destruct (Nat.eq_dec (rank f) 3) as [E|E].
    + destruct f as [r d]. simpl in E. subst r.
      unfold diffuse_twice, diffuse.
      destruct (Z.eqb_spec (N1 + N2) 0); [lia|].
      destruct (Z.eqb_spec N1 0); [lia|].
      destruct (data_0__0 _) as [a|e]; [|reflexivity].
      cbn [bind rank].
      destruct (Z.to_nat (N1 + N2)) as [|k] eqn:Ek; [lia|].
      destruct (Z.to_nat N1) as [|k1] eqn:Ek1; [lia|].
      reflexivity.
    + unfold diffuse_twice.
      rewrite !diffuse_planar by (assumption || lia).
      destruct (data_0__0 f) as [a|e]; [|reflexivity].
      cbn [bind]. rewrite diffuse_planar by (assumption || lia).
      rewrite data_0__0_as_field. cbn [bind rank as_field].
      rewrite !tmap_one, Z2Nat.inj_add, laplace_pow_add by lia.
      reflexivity.
  - intros nu. exists (nu * 0). split; [reflexivity|ring].
Qed.

(** C8, as stated, fails: order [-1] on a 3x3 field returns an array, no
    error is raised. *)
Lemma diffuse_negative_order_returns :
  (-1 < 0)%Z /\
  ~ exists e, diffuse laplace_wrap field2 (-1) 1 = Raise e.
Proof.
  split; [reflexivity|]. intros [e He]. vm_compute in He. discriminate He.
Qed.

(** C8, amended: for [N < 0] the loop body never runs, and [diffuse]
    returns [nu] times the samples [field.data[0, ..., 0]] of the field
    itself; the only errors are those of reading the samples. *)
Theorem diffuse_negative_order
        (L : forall r : nat, tensor r -> tensor r) (f : Field) (N : Z) (nu : Q) :
  (N < 0)%Z ->
  diffuse L f N nu =
  (a <- data_0__0 f ;; Ok (Arr (tmap (rank f) (Qmult nu) a))).
Proof.
  intros HN. unfold diffuse.
  destruct (Z.eqb_spec N 0); [lia|].
  destruct (data_0__0 f) as [a|e]; [|reflexivity].
  cbn [bind]. replace (Z.to_nat N) with 0%nat by lia. reflexivity.
Qed.

(** ** Facts about the step engine *)

Lemma bindT_lift_Ok {A B} (a : A) (k : A -> traced B) :
  bindT (lift (Ok a)) k = k a.
Proof. unfold bindT, lift. now destruct (k a). Qed.

Lemma bindT_lift_Raise {A B} (e : exn) (k : A -> traced B) :
  bindT (lift (Raise e)) k = ([], Raise e).
Proof. reflexivity. Qed.

Lemma bindT_call {A B} (c : grid 2) (a : A) (k : A -> traced B) :
  bindT ([c], Ok a) k = (c :: fst (k a), snd (k a)).
Proof. unfold bindT. now destruct (k a). Qed.

Lemma same_dynamics_bind {A r} (m : traced A)
      (k1 k2 : A -> traced (PlasmaHW r)) :
  (forall a, same_dynamics (k1 a) (k2 a)) ->
  same_dynamics (bindT m k1) (bindT m k2).
Proof.
  intros Hk. destruct m as [calls [a|e]]; simpl.
  - specialize (Hk a). unfold same_dynamics in *.
    destruct (k1 a) as [c1 r1], (k2 a) as [c2 r2].
    cbn [fst snd] in *. destruct Hk as [Hc Hs].
    split; [now rewrite Hc | exact Hs].
  - split; reflexivity.
Qed.

Lemma same_dynamics_ret {r} (s1 s2 : PlasmaHW r) :
  density s1 = density s2 -> omega s1 = omega s2 -> phi s1 = phi s2 ->
  age s1 = age s2 ->
  same_dynamics (ret s1) (ret s2).
Proof. intros. split; simpl; auto. Qed.

Ltac step_lift :=
  match goal with
  | |- context [bindT (lift ?m) _] =>
      destruct m eqn:?; [rewrite bindT_lift_Ok | rewrite bindT_lift_Raise]
  | |- context [let '(_, _) := ?g in _] => destruct g
  end.

(** ** The mean of a field *)

Lemma tsize_tmap (r : nat) (f : Q -> Q) (a : tensor r) :
  tsize r (tmap r f a) = tsize r a.
Proof.
  induction r as [|k IH]; [reflexivity|].
  simpl in a |- *. induction a as [|x a IHa]; [reflexivity|].
  simpl. now rewrite IH, IHa.
Qed.

Lemma tsum_tmap_sub (r : nat) (m : Q) (a : tensor r) :
  tsum r (tmap r (fun x => x - m) a) ==
  tsum r a - inject_Z (Z.of_nat (tsize r a)) * m.
Proof.
  induction r as [|k IH].
  - simpl. ring.
  - simpl in a |- *. induction a as [|x a IHa].
    + simpl. ring.
    + simpl. rewrite IH, IHa, Nat2Z.inj_add, inject_Z_plus. ring.
Qed.

Lemma mean_centered (r : nat) (a : tensor r) :
  (0 < tsize r a)%nat ->
  mean r (tmap r (fun x => x - mean r a) a) == 0.
Proof.
  intros Hs. unfold mean at 1. rewrite tsize_tmap, tsum_tmap_sub.
  unfold mean. field.
  change 0 with (inject_Z 0). rewrite inject_Z_injective. lia.
Qed.

(** Sample-wise form of [euler(p, p, dt)]. *)
Lemma euler_self (r : nat) (p : tensor r) (dt : Q) :
  tensor_eq r (euler p p dt) (tmap r (fun x => (1 + dt) * x) p).
Proof.
  unfold euler. induction r as [|k IH].
  - simpl. ring.
  - simpl in p |- *. induction p as [|x p IHp]; simpl; constructor; auto.
Qed.

Section StepFacts.
Variable ndarray : Type.
Variable np_of : forall r : nat, tensor r -> ndarray.
Variables np_num np_recip : Q -> ndarray.
Variables np_add np_sub np_mul : ndarray -> ndarray -> ndarray.
Variable np_reshape : forall r : nat, ndarray -> grid r -> result (grid r).
Variable poisson_solver_solve : grid 2 -> grid 2.
Variable cgrid : Type.
Variable gradient : grid 2 -> cgrid * cgrid.
Variable getitem_0_0 : cgrid -> cgrid.
Variable cgrid_data : cgrid -> ndarray.
Variable field_laplace_axis0 : grid 3 -> grid 3.
Variable nd_laplace_axis0 : tensor 4 -> tensor 4.
Variable nd_laplace : forall r : nat, tensor r -> tensor r.
Variable self : HasegawaWakatani.

Local Abbreviation step2d' :=
  (step2d ndarray np_of np_num np_recip np_add np_sub np_mul
          np_reshape poisson_solver_solve cgrid gradient
          getitem_0_0 cgrid_data nd_laplace self).
Local Abbreviation step3d' :=
  (step3d ndarray np_of np_num np_recip np_add np_sub np_mul
          np_reshape poisson_solver_solve cgrid gradient
          cgrid_data field_laplace_axis0 nd_laplace_axis0
          nd_laplace self).

Lemma step2d_inv (plasma : PlasmaHW 2) (dt : Q) :
  let p := poisson_solver_solve (zero_mean_omega plasma) in
  fst (step2d' plasma dt) = [zero_mean_omega plasma] /\
  forall s', snd (step2d' plasma dt) = Ok s' ->
    phi s' = euler (r := 4) p p dt /\
    laplace_phi s' = laplace_phi plasma /\
    laplace_n s' = laplace_n plasma /\
    age s' = age plasma + dt.
Proof.
  intros p. unfold step2d, solve_poisson.
  rewrite bindT_call. fold (zero_mean_omega plasma). fold p.
  cbn [fst snd].
  match goal with
  | |- _ :: fst ?t = _ /\ _ => set (rest := t)
  end.
  assert (Hrest : fst rest = [] /\
            forall s', snd rest = Ok s' ->
              phi s' = euler (r := 4) p p dt /\
              laplace_phi s' = laplace_phi plasma /\
              laplace_n s' = laplace_n plasma /\
              age s' = age plasma + dt).
  { subst rest. repeat step_lift;
      (split; [reflexivity|]); intros s' E; try discriminate E.
    inversion E; subst s'. simpl. auto. }
  destruct Hrest as [-> Hb]. split; [reflexivity | exact Hb].
Qed.

Lemma step3d_inv (plasma : PlasmaHW 3) (dt : Q) :
  let o2d : grid 2 := fold_batch (omega plasma) in
  let p2d := poisson_solver_solve o2d in
  fst (step3d' plasma dt) = [o2d] /\
  forall s', snd (step3d' plasma dt) = Ok s' ->
    exists p3d p3 n3,
      unfold_batch (omega plasma) p2d = Ok p3d /\
      chan0 4 p3d = Ok p3 /\
      chan0 4 (density plasma) = Ok n3 /\
      phi s' = euler (r := 5) p3d p3d dt /\
      np_reshape 3 (np_of 4 (nd_laplace_axis0 p3)) (omega plasma)
        = Ok (laplace_phi s') /\
      np_reshape 3 (np_of 4 (nd_laplace_axis0 n3)) (omega plasma)
        = Ok (laplace_n s') /\
      age s' = age plasma + dt.
Proof.
  intros o2d p2d. unfold step3d, solve_poisson.
  rewrite bindT_call. fold o2d. fold p2d. cbn [fst snd].
  match goal with
  | |- _ :: fst ?t = _ /\ _ => set (rest := t)
  end.
  assert (Hrest : fst rest = [] /\
            forall s', snd rest = Ok s' ->
    exists p3d p3 n3,
      unfold_batch (omega plasma) p2d = Ok p3d /\
      chan0 4 p3d = Ok p3 /\
      chan0 4 (density plasma) = Ok n3 /\
      phi s' = euler (r := 5) p3d p3d dt /\
      np_reshape 3 (np_of 4 (nd_laplace_axis0 p3)) (omega plasma)
        = Ok (laplace_phi s') /\
      np_reshape 3 (np_of 4 (nd_laplace_axis0 n3)) (omega plasma)
        = Ok (laplace_n s') /\
      age s' = age plasma + dt).
  { subst rest.
    destruct (unfold_batch (omega plasma) p2d) as [p3d|e] eqn:Ep3d;
      [rewrite bindT_lift_Ok | rewrite bindT_lift_Raise; split;
                               [reflexivity | discriminate]].
    repeat step_lift;
      (split; [reflexivity|]); intros s' E; try discriminate E.
    inversion E; subst s'. simpl.
    repeat match goal with
           | H : Ok _ = Ok _ |- _ => inversion H; subst; clear H
           end.
    eauto 12. }
  destruct Hrest as [-> Hb]. split; [reflexivity | exact Hb].
Qed.

Lemma tsum_app (r : nat) (a b : list (tensor r)) :
  tsum (S r) (a ++ b) == tsum (S r) a + tsum (S r) b.
Proof.
  induction a as [|x a IH]; simpl.
  - ring.
  - simpl in IH. rewrite IH. ring.
Qed.

Lemma tsize_app (r : nat) (a b : list (tensor r)) :
  tsize (S r) (a ++ b) = (tsize (S r) a + tsize (S r) b)%nat.
Proof.
  induction a as [|x a IH]; simpl; [reflexivity|].
  simpl in IH. rewrite IH. lia.
Qed.

(** Folding the first spatial axis into the batch keeps the samples, hence
    their mean. *)
Lemma mean_fold_batch (a : grid 3) :
  mean 4 (fold_batch a) == mean 5 a.
Proof.
  unfold mean, fold_batch.
  assert (Hs : tsum 4 (concat a) == tsum 5 a).
  { induction a as [|x a IH]; [reflexivity|].
    change (concat (x :: a)) with (x ++ concat a).
    rewrite (tsum_app 3). rewrite IH. reflexivity. }
  assert (Hn : tsize 4 (concat a) = tsize 5 a).
  { clear Hs. induction a as [|x a IH]; [reflexivity|].
    change (concat (x :: a)) with (x ++ concat a).
    rewrite (tsize_app 3). rewrite IH. reflexivity. }
  rewrite Hs, Hn. reflexivity.
Qed.

(** ** Claims about the step engine *)

(** C2: the 2D path hands exactly one field to the Poisson solver, the
    vorticity minus its spatial mean, and the spatial mean of that field
    is zero; the 3D path hands over the vorticity samples as they are
    (only reshaped), so their mean is the mean of the input vorticity. *)
Theorem poisson_rhs_mean (p2 : PlasmaHW 2) (p3 : PlasmaHW 3) (dt : Q) :
  (0 < tsize 4 (omega p2))%nat ->
  (fst (step2d' p2 dt) = [zero_mean_omega p2] /\
   mean 4 (zero_mean_omega p2) == 0) /\
  (fst (step3d' p3 dt) = [fold_batch (omega p3)] /\
   mean 4 (fold_batch (omega p3)) == mean 5 (omega p3)).
Proof.
  intros Hs. split; split.
  - apply step2d_inv.
  - now apply mean_centered.
  - apply step3d_inv.
  - apply mean_fold_batch.
Qed.

(** C9 (2D path): the state returned by [step2d] carries the diagnostic
    fields [laplace_phi] and [laplace_n] of the input state unchanged;
    they are not recomputed from the step's fields. *)
Theorem step2d_diagnostics_not_recomputed
        (plasma s' : PlasmaHW 2) (dt : Q) :
  snd (step2d' plasma dt) = Ok s' ->
  laplace_phi s' = laplace_phi plasma /\ laplace_n s' = laplace_n plasma.
Proof.
  intros E. destruct (step2d_inv plasma dt) as [_ Hinv].
  destruct (Hinv s' E) as (_ & Hp & Hn & _). now split.
Qed.

(** C10: in the 2D path the solver is called once, and the potential of
    the returned state is, sample by sample, [(1 + dt)] times the potential
    the solver returned for that call. *)
Theorem step2d_phi_euler_of_solved (plasma s' : PlasmaHW 2) (dt : Q) :
  snd (step2d' plasma dt) = Ok s' ->
  exists c,
    fst (step2d' plasma dt) = [c] /\
    tensor_eq 4 (phi s')
              (tmap 4 (fun x => (1 + dt) * x) (poisson_solver_solve c)).
Proof.
  intros E. destruct (step2d_inv plasma dt) as [Hc Hinv].
  destruct (Hinv s' E) as (Hp & _). exists (zero_mean_omega plasma).
  split; [exact Hc|]. rewrite Hp. apply euler_self.
Qed.
(** The diagnostic fields of the input state feed back into nothing: the
    solver call and the returned density, vorticity, potential and age do not
    depend on them, on either path. *)
Lemma step2d_diagnostics_no_feedback (plasma : PlasmaHW 2) (lp ln : grid 2)
      (dt : Q) :
  same_dynamics (step2d' (with_diagnostics plasma lp ln) dt)
                (step2d' plasma dt).
Proof.
  unfold step2d, with_diagnostics. cbn [phi omega density nu age].
  repeat first [ apply same_dynamics_bind; intro
               | match goal with
                 | |- context [let '(_, _) := ?g in _] => destruct g
                 end ].
  apply same_dynamics_ret; reflexivity.
Qed.

Lemma step3d_diagnostics_no_feedback (plasma : PlasmaHW 3) (lp ln : grid 3)
      (dt : Q) :
  same_dynamics (step3d' (with_diagnostics plasma lp ln) dt)
                (step3d' plasma dt).
Proof.
  unfold step3d, with_diagnostics. cbn [phi omega density nu age].
  repeat first [ apply same_dynamics_bind; intro
               | match goal with
                 | |- context [let '(_, _) := ?g in _] => destruct g
                 end ].
  apply same_dynamics_ret; reflexivity.
Qed.
End StepFacts.

Section ZeroField.
Variable ndarray : Type.
Variable np_of : forall r : nat, tensor r -> ndarray.
Variables np_num np_recip : Q -> ndarray.
Variables np_add np_sub np_mul : ndarray -> ndarray -> ndarray.
Variable np_reshape : forall r : nat, ndarray -> grid r -> result (grid r).
Variable poisson_solver_solve : grid 2 -> grid 2.
Variable cgrid : Type.
Variable gradient : grid 2 -> cgrid * cgrid.
Variable getitem_0_0 : cgrid -> cgrid.
Variable cgrid_data : cgrid -> ndarray.
Variable field_laplace_axis0 : grid 3 -> grid 3.
Variable nd_laplace_axis0 : tensor 4 -> tensor 4.
Variable nd_laplace : forall r : nat, tensor r -> tensor r.

(** C4 (evaluated on the all-zero state of a 2x2x2 grid, [kap = 0], the
    default order [N = 2]): whatever the collaborators return, [step] takes
    the 3D path and raises an exception; no state, zero or not, is
    returned. *)
Theorem step_zero_state_raises (dt : Q) :
  exists e,
    snd (step ndarray np_of np_num np_recip np_add np_sub np_mul
              np_reshape poisson_solver_solve cgrid gradient getitem_0_0
              cgrid_data field_laplace_axis0 nd_laplace_axis0 nd_laplace
              (mkHW 0 2) 3 plasma3_zero dt) = Raise e.
Proof.
  unfold step. change (Qeq_bool (kap (mkHW 0 2)) 0) with true. cbv iota.
  unfold step3d, solve_poisson. rewrite bindT_call. cbn [snd].
  change (diffuse nd_laplace (mkField 3 (omega plasma3_zero))
                  (N (mkHW 0 2)) 1)
    with (@Raise (value 3) (NameError "axes")).
  repeat first [ rewrite bindT_lift_Raise; eexists; reflexivity
               | step_lift ].
  all: eexists; reflexivity.
Qed.
End ZeroField.

(** With collaborators that keep shapes, the exception is the [NameError]
    of [diffuse], and the solver has been called before it. *)
Example step3d_stub_zero_state :
  step3d_stub (mkHW 0 2) plasma3_zero (1 # 10)
  = ([fold_batch grid3_zero], Raise (NameError "axes")).
Proof. vm_compute. reflexivity. Qed.

Lemma shape2_zeta33 : shape2 3 3 zeta33.
Proof. split; [reflexivity | repeat constructor]. Defined.

Lemma shape2_psi33 : shape2 3 3 psi33.
Proof. split; [reflexivity | repeat constructor]. Defined.

Lemma arakawa_vec_stencil_shape_witness :
  shape2 (1 + 2) (1 + 2) zeta33 /\ shape2 (1 + 2) (1 + 2) psi33 /\
  (shape2 1 1 (arakawa_vec zeta33 psi33 1) /\
   (forall i j, (i < 1)%nat -> (j < 1)%nat ->
      get2 (arakawa_vec zeta33 psi33 1) i j =
      arakawa_kernel (padded_at zeta33 i j) (padded_at psi33 i j)
      / (4 * 1 ^ 2)) /\
   (forall a b, shape2 1 1 a -> shape2 1 1 b -> (1 <= 1)%nat -> (1 <= 1)%nat ->
      exists r, periodic_arakawa a b 1 = Ok r /\ shape2 1 1 r)).
Proof.
  split; [exact shape2_zeta33|]. split; [exact shape2_psi33|].
  exact (arakawa_vec_stencil_shape 1 1 zeta33 psi33 1
           shape2_zeta33 shape2_psi33).
Defined.

Lemma one_nonzero : ~ 1 == 0.
Proof. intros E. discriminate E. Defined.

Lemma periodic_arakawa_antisymmetric_witness :
  shape2 3 3 zeta33 /\ shape2 3 3 psi33 /\ ~ 1 == 0 /\
  match periodic_arakawa zeta33 psi33 1, periodic_arakawa psi33 zeta33 1,
        periodic_arakawa zeta33 zeta33 1
  with
  | Ok ab, Ok ba, Ok aa =>
      arr2_eq ab (neg2 ba) /\
      shape2 3 3 aa /\ Forall (Forall (fun x => x == 0)) aa
  | Raise e1, Raise e2, Raise e3 => (3 = 0 \/ 3 = 0)%nat
  | _, _, _ => False
  end.
Proof.
  split; [exact shape2_zeta33|]. split; [exact shape2_psi33|].
  split; [exact one_nonzero|].
  exact (periodic_arakawa_antisymmetric 3 3 zeta33 psi33 1
           shape2_zeta33 shape2_psi33 one_nonzero).
Defined.

Lemma diffuse_composition_positive_orders_witness :
  (1 <= 1)%Z /\ (1 <= 2)%Z /\
  (diffuse laplace_wrap field2 (1 + 2) 1 = diffuse_twice laplace_wrap field2 1 2 /\
   forall nu, exists z, diffuse laplace_wrap field2 0 nu = Ok (Num z) /\ z == 0).
Proof.
  split; [discriminate|]. split; [discriminate|].
  apply (diffuse_composition_positive_orders laplace_wrap field2 1 2);
    discriminate.
Defined.

Lemma diffuse_negative_order_witness :
  (-1 < 0)%Z /\
  diffuse laplace_wrap field2 (-1) 1 =
  (a <- data_0__0 field2 ;; Ok (Arr (tmap (rank field2) (Qmult 1) a))).
Proof.
  split; [reflexivity|].
  apply (diffuse_negative_order laplace_wrap field2 (-1) 1). reflexivity.
Defined.

Lemma poisson_rhs_mean_witness :
  (0 < tsize 4 (omega plasma2))%nat /\
  ((fst (step2d_stub (mkHW 1 1) plasma2 (1 # 10)) = [zero_mean_omega plasma2] /\
    mean 4 (zero_mean_omega plasma2) == 0) /\
   (fst (step3d_stub (mkHW 1 1) plasma3_zero (1 # 10))
    = [fold_batch (omega plasma3_zero)] /\
    mean 4 (fold_batch (omega plasma3_zero)) == mean 5 (omega plasma3_zero))).
Proof.
  assert (Hs : (0 < tsize 4 (omega plasma2))%nat) by (vm_compute; lia).
  split; [exact Hs|].
  exact (poisson_rhs_mean unit (fun _ _ => tt) (fun _ => tt) (fun _ => tt)
           (fun _ _ => tt) (fun _ _ => tt) (fun _ _ => tt)
           stub_reshape (fun o => o) unit (fun _ => (tt, tt)) (fun c => c)
           (fun _ => tt) (fun a => a) (laplace_wrap 4) laplace_wrap
           (mkHW 1 1) plasma2 plasma3_zero (1 # 10) Hs).
Defined.

Lemma step2d_diagnostics_not_recomputed_witness :
  exists s',
    snd (step2d_stub (mkHW 1 1) plasma2 (1 # 10)) = Ok s' /\
    (laplace_phi s' = laplace_phi plasma2 /\
     laplace_n s' = laplace_n plasma2).
Proof.
  eexists. split; [vm_compute; reflexivity|].
  apply (step2d_diagnostics_not_recomputed
           unit (fun _ _ => tt) (fun _ => tt) (fun _ => tt)
           (fun _ _ => tt) (fun _ _ => tt) (fun _ _ => tt)
           stub_reshape (fun o => o) unit (fun _ => (tt, tt)) (fun c => c)
           (fun _ => tt) laplace_wrap (mkHW 1 1) plasma2 _ (1 # 10)).
  vm_compute. reflexivity.
Defined.

Lemma step2d_phi_euler_of_solved_witness :
  exists s',
    snd (step2d_stub (mkHW 1 1) plasma2 (1 # 10)) = Ok s' /\
    exists c,
      fst (step2d_stub (mkHW 1 1) plasma2 (1 # 10)) = [c] /\
      tensor_eq 4 (phi s') (tmap 4 (fun x => (1 + (1 # 10)) * x) c).
Proof.
  eexists. split; [vm_compute; reflexivity|].
  apply (step2d_phi_euler_of_solved
           unit (fun _ _ => tt) (fun _ => tt) (fun _ => tt)
           (fun _ _ => tt) (fun _ _ => tt) (fun _ _ => tt)
           stub_reshape (fun o => o) unit (fun _ => (tt, tt)) (fun c => c)
           (fun _ => tt) laplace_wrap (mkHW 1 1) plasma2 _ (1 # 10)).
  vm_compute. reflexivity.
Defined.

(** ** The batched bracket on every well-shaped stack *)

Lemma tabulates_map (H W : nat) (f : Q -> Q) (a : arr2)
      (g : nat -> nat -> Q) :
  tabulates H W a g -> tabulates H W (map (map f) a) (fun i j => f (g i j)).
Proof.
  intros [[Hl Hr] Ha]. split; [split|].
  - now rewrite length_map.
  - apply Forall_map. rewrite Forall_forall in *.
    intros x Hx. rewrite length_map. auto.
  - intros i j Hi Hj. rewrite <- Ha by assumption. unfold get2.
    rewrite (map_nth_lt _ _ _ []) by lia.
    apply (map_nth_lt f).
    rewrite (shape2_row H W a); try lia; split; auto.
Qed.

Lemma seq_map_nth {A} (f : nat -> A) (n i : nat) (d : A) :
  (i < n)%nat -> nth i (map f (seq 0 n)) d = f i.
Proof.
  intros Hi. rewrite (map_nth_lt f _ _ 0%nat) by (rewrite length_seq; lia).
  now rewrite seq_nth.
Qed.

Lemma rel_at_padded_at (a : arr2) (i j : nat) (di dj : Z) :
  (-1 <= di)%Z -> (-1 <= dj)%Z ->
  rel_at a (i + 1) (j + 1) di dj = padded_at a i j di dj.
Proof.
  intros Hi Hj. unfold rel_at, padded_at. f_equal; lia.
Qed.

(** Inside the border the stencil output is the kernel at that cell. *)
Lemma arakawa_stencil_interior (H W : nat) (z p : arr2) :
  shape2 (H + 2) (W + 2) z ->
  tabulates H W (sl2 Mid Mid (arakawa_stencil z p))
    (fun i j => arakawa_kernel (padded_at z i j) (padded_at p i j)).
Proof.
  intros Hz. pose proof Hz as [Hl Hr].
  assert (HW : length (hd [] z) = (W + 2)%nat).
  { destruct z as [|r z]; [simpl in Hl; lia|]. now inversion Hr. }
  assert (Hs : shape2 (H + 2) (W + 2) (arakawa_stencil z p)).
  { unfold arakawa_stencil. rewrite HW, Hl. split.
    - now rewrite length_map, length_seq.
    - apply Forall_map, Forall_forall. intros i _.
      now rewrite length_map, length_seq. }
  destruct (tabulates_sl2 H W Mid Mid _ Hs) as [Hs' Hg].
  split; [exact Hs'|]. intros i j Hi Hj. rewrite Hg by assumption.
  unfold get2, arakawa_stencil, slice_off. rewrite HW, Hl.
  rewrite (seq_map_nth _ _ _ []) by lia.
  rewrite (seq_map_nth _ _ _ 0) by lia.
  replace ((1 <=? i + 1) && (i + 1 + 1 <? H + 2) && (1 <=? j + 1)
           && (j + 1 + 1 <? W + 2))%nat with true.
  - unfold arakawa_kernel. rewrite !rel_at_padded_at by lia. reflexivity.
  - symmetry. rewrite !andb_true_iff, !Nat.leb_le, !Nat.ltb_lt. lia.
Qed.

Lemma take_slice_Mid_pad1 {A} (d : A) (l : list A) :
  take_slice Mid (pad1 d l) = l.
Proof.
  unfold take_slice. rewrite pad1_length. unfold pad1.
  change (skipn 1 (last l d :: l ++ [hd d l])) with (l ++ [hd d l]).
  replace (length l + 2 - 2)%nat with (length l + 0)%nat by lia.
  rewrite firstn_app_2. simpl. apply app_nil_r.
Qed.

Lemma periodic_padding_3 (K H W : nat) (a : arr3) :
  shape3 K H W a -> (1 <= K)%nat -> (1 <= H)%nat -> (1 <= W)%nat ->
  periodic_padding 3 a = Ok (pad1 [] (map pad2 a)).
Proof.
  intros [Hl Hr] HK HH HW.
  change (periodic_padding 3 a)
    with (rows <- mapM (periodic_padding 2) a ;; wrap1 rows).
  rewrite (mapM_Ok _ pad2).
  - simpl. apply wrap1_pad1. destruct a; simpl in *; [lia | congruence].
  - eapply Forall_impl; [|exact Hr]. intros s Hs.
    now apply (periodic_padding_2 H W).
Qed.

Lemma take_slice_map {A B} (f : A -> B) (s : slice) (l : list A) :
  take_slice s (map f l) = map f (take_slice s l).
Proof.
  destruct s; unfold take_slice; rewrite ?length_map.
  - apply firstn_map.
  - now rewrite skipn_map, firstn_map.
  - apply skipn_map.
Qed.

Lemma sl2_map (f : Q -> Q) (r c : slice) (a : arr2) :
  sl2 r c (map (map f) a) = map (map f) (sl2 r c a).
Proof.
  unfold sl2. rewrite take_slice_map, !map_map.
  apply map_ext. intros row. apply take_slice_map.
Qed.

(** One slice: three times the batched value is the 2D bracket. *)
Lemma batched_slice_third (H W : nat) (a b : arr2) :
  shape2 H W a -> shape2 H W b -> (1 <= H)%nat -> (1 <= W)%nat ->
  arr2_eq
    (map (map (Qmult 3))
         (sl2 Mid Mid (divs2 (arakawa_stencil (pad2 a) (pad2 b)) (12 * 1 ^ 2))))
    (arakawa_vec (pad2 a) (pad2 b) 1).
Proof.
  intros Ha Hb HH HW. unfold divs2. rewrite sl2_map.
  eapply (arr2_eq_of_tabulates H W).
  - apply tabulates_map, tabulates_map.
    apply arakawa_stencil_interior. now apply pad2_shape.
  - now apply periodic_arakawa_tabulates.
  - intros i j _ _. cbv beta. field.
Qed.

Lemma batched_stack_third (H W : nat) (zs ps : arr3) :
  (1 <= H)%nat -> (1 <= W)%nat ->
  Forall (shape2 H W) zs -> Forall (shape2 H W) ps -> length zs = length ps ->
  exists r s,
    arakawa_3d_loop (map pad2 zs) (map pad2 ps) = Ok r /\
    periodic_arakawa_slices zs ps 1 = Ok s /\
    arr3_eq
      (map (map (map (Qmult 3)))
           (map (sl2 Mid Mid) (map (fun x => divs2 x (12 * 1 ^ 2)) r)))
      s.
Proof.
  intros HH HW Hz. revert ps.
  induction Hz as [|z zs Hz0 Hz IH]; intros ps Hp Hlen.
  - destruct ps; [|discriminate]. exists [], []. repeat split. constructor.
  - destruct ps as [|p ps]; [discriminate|].
    inversion Hp as [|? ? Hp0 Hp']; subst.
    destruct (IH ps Hp' ltac:(simpl in Hlen; lia)) as (r & s & Er & Es & Eq).
    exists (arakawa_stencil (pad2 z) (pad2 p) :: r).
    exists (arakawa_vec (pad2 z) (pad2 p) 1 :: s).
    split; [|split].
    + simpl. now rewrite Er.
    + simpl. rewrite (periodic_arakawa_Ok H W) by assumption.
      simpl. now rewrite Es.
    + simpl. constructor; [|exact Eq].
      now apply (batched_slice_third H W).
Qed.

(** X8: on every stack of [K >= 1] slices of a non-empty [(H, W)] grid, the
    batched bracket returns one third of what the 2D bracket with [d = 1]
    returns slice by slice, whatever [d] is passed. *)
Lemma periodic_arakawa_3d_is_third (K H W : nat) (zeta psi : arr3) (d : Q) :
  shape3 K H W zeta -> shape3 K H W psi ->
  (1 <= K)%nat -> (1 <= H)%nat -> (1 <= W)%nat ->
  exists r s,
    periodic_arakawa_3d zeta psi d = Ok r /\
    periodic_arakawa_slices zeta psi 1 = Ok s /\
    arr3_eq (map (map (map (Qmult 3))) r) s.
Proof.
  intros Hz Hp HK HH HW. pose proof Hz as [Lz Fz]. pose proof Hp as [Lp Fp].
  destruct (batched_stack_third H W zeta psi HH HW Fz Fp ltac:(lia))
    as (r & s & Er & Es & Eq).
  exists (map (sl2 Mid Mid) (map (fun x => divs2 x (12 * 1 ^ 2)) r)), s.
  split; [|split; assumption].
  unfold periodic_arakawa_3d.
  rewrite (periodic_padding_3 K H W zeta), (periodic_padding_3 K H W psi)
    by assumption.
  cbn [bind]. rewrite !take_slice_Mid_pad1.
  unfold arakawa_3d. rewrite Er. reflexivity.
Qed.

(** * Further properties of the kernel *)

(** ** Periodic padding *)

(** X1: padding a non-empty [(H, W)] array succeeds, gives an
    [(H+2, W+2)] array, and its interior [[1:-1, 1:-1]] is the array
    itself. *)
Theorem periodic_padding_interior (H W : nat) (a : arr2) :
  shape2 H W a -> (1 <= H)%nat -> (1 <= W)%nat ->
  exists p, periodic_padding 2 a = Ok p /\
            shape2 (H + 2) (W + 2) p /\
            sl2 Mid Mid p = a.
Proof.
  intros Ha HH HW. exists (pad2 a). split; [|split].
  - now apply (periodic_padding_2 H W).
  - now apply pad2_shape.
  - unfold sl2, pad2. rewrite take_slice_Mid_pad1, map_map.
    rewrite <- (map_id a) at 2. apply map_ext. intros r.
    apply take_slice_Mid_pad1.
Qed.

Lemma pad2_get2 (H W : nat) (a : arr2) (i j : nat) :
  shape2 H W a -> (1 <= H)%nat -> (1 <= W)%nat ->
  (i < H + 2)%nat -> (j < W + 2)%nat ->
  get2 (pad2 a) i j = get2 a ((i + H - 1) mod H) ((j + W - 1) mod W).
Proof.
  intros Ha HH HW Hi Hj. pose proof Ha as [Hl Hr]. unfold get2, pad2.
  assert (Hne : map (pad1 0) a <> []).
  { destruct a; simpl in *; [lia | congruence]. }
  rewrite (pad1_nth [] _ i Hne) by (rewrite length_map; lia).
  rewrite length_map, Hl.
  assert (Hm : ((i + H - 1) mod H < H)%nat) by (apply Nat.mod_upper_bound; lia).
  rewrite (map_nth_lt _ _ _ []) by lia.
  assert (Hrow : length (nth ((i + H - 1) mod H) a []) = W)
    by now apply (shape2_row H W).
  rewrite pad1_nth.
  + now rewrite Hrow.
  + intros E. apply (f_equal (@length Q)) in E. cbn in E, Hrow. lia.
  + lia.
Qed.

(** X2: every cell [(i, j)] of the padded array holds the cell
    [((i - 1) mod H, (j - 1) mod W)] of the original one: index [0] reads
    the last row or column, index [H + 1] or [W + 1] the first. *)
Theorem periodic_padding_wraps (H W : nat) (a : arr2) :
  shape2 H W a -> (1 <= H)%nat -> (1 <= W)%nat ->
  exists p, periodic_padding 2 a = Ok p /\
    forall i j, (i < H + 2)%nat -> (j < W + 2)%nat ->
      get2 p i j = get2 a ((i + H - 1) mod H) ((j + W - 1) mod W).
Proof.
  intros Ha HH HW. exists (pad2 a). split.
  - now apply (periodic_padding_2 H W).
  - intros i j Hi Hj. now apply pad2_get2.
Qed.

(** X3: an array with an empty axis cannot be padded: [periodic_padding]
    raises [ValueError], and so does [periodic_arakawa] whatever its second
    argument and spacing. *)
Theorem periodic_padding_empty_axis (H W : nat) (a : arr2) :
  shape2 H W a -> (H = 0 \/ W = 0)%nat ->
  periodic_padding 2 a = Raise ValueError /\
  forall b d, periodic_arakawa a b d = Raise ValueError.
Proof.
  intros Ha HW.
  assert (E : periodic_padding 2 a = Raise ValueError)
    by now apply (periodic_padding_2_empty H W).
  split; [exact E|]. intros b d. unfold periodic_arakawa. now rewrite E.
Qed.

(** ** Closed form, linearity and constants of the periodic bracket *)

Lemma padded_at_wrapped (H W : nat) (a : arr2) (i j : nat) (di dj : Z) :
  shape2 H W a -> (1 <= H)%nat -> (1 <= W)%nat ->
  (i < H)%nat -> (j < W)%nat ->
  (-1 <= di <= 1)%Z -> (-1 <= dj <= 1)%Z ->
  padded_at (pad2 a) i j di dj = wrapped_at H W a i j di dj.
Proof.
  intros Ha HH HW Hi Hj Hdi Hdj. unfold padded_at, wrapped_at.
  apply pad2_get2; auto; lia.
Qed.

Lemma arakawa_kernel_wrapped (H W : nat) (a b : arr2) (i j : nat) :
  shape2 H W a -> shape2 H W b -> (1 <= H)%nat -> (1 <= W)%nat ->
  (i < H)%nat -> (j < W)%nat ->
  arakawa_kernel (padded_at (pad2 a) i j) (padded_at (pad2 b) i j) =
  arakawa_kernel (wrapped_at H W a i j) (wrapped_at H W b i j).
Proof.
  intros Ha Hb HH HW Hi Hj. unfold arakawa_kernel.
  rewrite !(padded_at_wrapped H W a), !(padded_at_wrapped H W b)
    by (assumption || lia).
  reflexivity.
Qed.

(** X4: on a non-empty [(H, W)] grid, [periodic_arakawa] returns an
    [(H, W)] array whose entry [(i, j)] is the 8-term combination of the
    periodic neighbours [a[(i + di) mod H, (j + dj) mod W]], divided by
    [4 * d^2]. *)
Theorem periodic_arakawa_closed_form (H W : nat) (a b : arr2) (d : Q) :
  shape2 H W a -> shape2 H W b -> (1 <= H)%nat -> (1 <= W)%nat ->
  exists r, periodic_arakawa a b d = Ok r /\
    shape2 H W r /\
    forall i j, (i < H)%nat -> (j < W)%nat ->
      get2 r i j =
      arakawa_kernel (wrapped_at H W a i j) (wrapped_at H W b i j)
      / (4 * d ^ 2).
Proof.
  intros Ha Hb HH HW. eexists. split; [now apply (periodic_arakawa_Ok H W)|].
  destruct (periodic_arakawa_tabulates H W a b d Ha Hb HH HW) as [Hs Hg].
  split; [exact Hs|]. intros i j Hi Hj. rewrite Hg by assumption.
  now rewrite (arakawa_kernel_wrapped H W).
Qed.

Lemma tabulates_self (H W : nat) (a : arr2) :
  shape2 H W a -> tabulates H W a (get2 a).
Proof. intros Ha. split; auto. Qed.

Lemma wrapped_at_add2 (H W : nat) (b c : arr2) (i j : nat) (di dj : Z) :
  shape2 H W b -> shape2 H W c -> (1 <= H)%nat -> (1 <= W)%nat ->
  wrapped_at H W (add2 b c) i j di dj =
  wrapped_at H W b i j di dj + wrapped_at H W c i j di dj.
Proof.
  intros Hb Hc HH HW. unfold wrapped_at.
  destruct (tabulates_ew2 H W Qplus b c _ _
              (tabulates_self H W b Hb) (tabulates_self H W c Hc)) as [_ Hg].
  apply Hg; apply Nat.mod_upper_bound; lia.
Qed.

Lemma add2_shape (H W : nat) (b c : arr2) :
  shape2 H W b -> shape2 H W c -> shape2 H W (add2 b c).
Proof.
  intros Hb Hc.
  now destruct (tabulates_ew2 H W Qplus b c _ _
                  (tabulates_self H W b Hb) (tabulates_self H W c Hc)).
Qed.

(** X5: the periodic bracket is additive in each argument: for same-shaped
    arrays on a non-empty grid and [d <> 0], [bracket(a, b + c)] equals
    [bracket(a, b) + bracket(a, c)] and [bracket(b + c, a)] equals
    [bracket(b, a) + bracket(c, a)], sample by sample. *)
Theorem periodic_arakawa_additive (H W : nat) (a b c : arr2) (d : Q) :
  shape2 H W a -> shape2 H W b -> shape2 H W c ->
  (1 <= H)%nat -> (1 <= W)%nat -> ~ d == 0 ->
  (exists rab rac r,
     periodic_arakawa a b d = Ok rab /\
     periodic_arakawa a c d = Ok rac /\
     periodic_arakawa a (add2 b c) d = Ok r /\
     arr2_eq r (add2 rab rac)) /\
  (exists rba rca r,
     periodic_arakawa b a d = Ok rba /\
     periodic_arakawa c a d = Ok rca /\
     periodic_arakawa (add2 b c) a d = Ok r /\
     arr2_eq r (add2 rba rca)).
Proof.
  intros Ha Hb Hc HH HW Hd.
  pose proof (add2_shape H W b c Hb Hc) as Hbc.
  split.
  - do 3 eexists. repeat split;
      try (apply (periodic_arakawa_Ok H W); assumption).
    eapply (arr2_eq_of_tabulates H W).
    + now apply periodic_arakawa_tabulates.
    + apply tabulates_ew2; now apply periodic_arakawa_tabulates.
    + intros i j Hi Hj. cbv beta.
      rewrite !(arakawa_kernel_wrapped H W) by assumption.
      unfold arakawa_kernel. rewrite !(wrapped_at_add2 H W) by assumption.
      field. exact Hd.
  - do 3 eexists. repeat split;
      try (apply (periodic_arakawa_Ok H W); assumption).
    eapply (arr2_eq_of_tabulates H W).
    + now apply periodic_arakawa_tabulates.
    + apply tabulates_ew2; now apply periodic_arakawa_tabulates.
    + intros i j Hi Hj. cbv beta.
      rewrite !(arakawa_kernel_wrapped H W) by assumption.
      unfold arakawa_kernel. rewrite !(wrapped_at_add2 H W) by assumption.
      field. exact Hd.
Qed.

Lemma tabulates_Forall (H W : nat) (a : arr2) (g : nat -> nat -> Q)
      (P : Q -> Prop) :
  tabulates H W a g ->
  (forall i j, (i < H)%nat -> (j < W)%nat -> P (g i j)) ->
  Forall (Forall P) a.
Proof.
  intros [[Hl Hr] Hg] HP.
  rewrite Forall_forall. intros row Hrow.
  destruct (In_nth _ _ [] Hrow) as [i [Hi <-]].
  rewrite Forall_forall. intros x Hx.
  destruct (In_nth _ _ 0 Hx) as [j [Hj <-]].
  rewrite (shape2_row H W) in Hj by (try split; auto; lia).
  change (P (get2 a i j)). rewrite Hg by lia. apply HP; lia.
Qed.

Lemma full2_shape (H W : nat) (c : Q) : shape2 H W (full2 H W c).
Proof.
  unfold full2. split.
  - apply repeat_length.
  - apply Forall_forall. intros r Hr. apply repeat_spec in Hr. subst r.
    apply repeat_length.
Qed.

Lemma nth_repeat_lt {A} (x d : A) (n i : nat) :
  (i < n)%nat -> nth i (repeat x n) d = x.
Proof.
  revert i. induction n as [|n IH]; intros [|i] Hi; simpl; try lia; auto.
  apply IH. lia.
Qed.

Lemma wrapped_at_full2 (H W : nat) (c : Q) (i j : nat) (di dj : Z) :
  (1 <= H)%nat -> (1 <= W)%nat ->
  wrapped_at H W (full2 H W c) i j di dj = c.
Proof.
  intros HH HW. unfold wrapped_at, get2, full2.
  rewrite nth_repeat_lt by (apply Nat.mod_upper_bound; lia).
  apply nth_repeat_lt. apply Nat.mod_upper_bound. lia.
Qed.

(** X6: the periodic bracket with a constant field vanishes: on a non-empty
    grid, [bracket(a, c)] and [bracket(c, a)] are zero everywhere when [c]
    is the array filled with one value. *)
Theorem periodic_arakawa_constant (H W : nat) (a : arr2) (c d : Q) :
  shape2 H W a -> (1 <= H)%nat -> (1 <= W)%nat ->
  exists r1 r2,
    periodic_arakawa a (full2 H W c) d = Ok r1 /\
    periodic_arakawa (full2 H W c) a d = Ok r2 /\
    Forall (Forall (fun x => x == 0)) r1 /\
    Forall (Forall (fun x => x == 0)) r2.
Proof.
  intros Ha HH HW. pose proof (full2_shape H W c) as Hc.
  do 2 eexists. repeat split;
    try (apply (periodic_arakawa_Ok H W); assumption).
  - eapply (tabulates_Forall H W).
    + now apply periodic_arakawa_tabulates.
    + intros i j Hi Hj. cbv beta.
      rewrite (arakawa_kernel_wrapped H W) by assumption.
      unfold arakawa_kernel. rewrite !wrapped_at_full2 by assumption.
      unfold Qdiv. ring.
  - eapply (tabulates_Forall H W).
    + now apply periodic_arakawa_tabulates.
    + intros i j Hi Hj. cbv beta.
      rewrite (arakawa_kernel_wrapped H W) by assumption.
      unfold arakawa_kernel. rewrite !wrapped_at_full2 by assumption.
      unfold Qdiv. ring.
Qed.

(** ** The stencil form against the sliced form *)

Lemma arakawa_stencil_shape (H W : nat) (z p : arr2) :
  shape2 H W z -> shape2 H W (arakawa_stencil z p).
Proof.
  intros [Hl Hr]. unfold arakawa_stencil. rewrite Hl. split.
  - now rewrite length_map, length_seq.
  - apply Forall_map, Forall_forall. intros i Hi.
    rewrite length_map, length_seq.
    destruct z as [|r z]; [simpl in Hl; subst H; inversion Hi|].
    now inversion Hr.
Qed.

(** X7: on padded inputs of shape [(H+2, W+2)] and [d <> 0], [arakawa]
    returns an array of the input shape, and three times its interior
    [[1:-1, 1:-1]] is what [arakawa_vec] returns: the two forms evaluate
    the same stencil with divisors [12 d^2] and [4 d^2]. *)
Theorem arakawa_interior_vs_arakawa_vec (H W : nat) (z p : arr2) (d : Q) :
  shape2 (H + 2) (W + 2) z -> shape2 (H + 2) (W + 2) p -> ~ d == 0 ->
  shape2 (H + 2) (W + 2) (arakawa z p d) /\
  arr2_eq (map (map (Qmult 3)) (sl2 Mid Mid (arakawa z p d)))
          (arakawa_vec z p d).
Proof.
  intros Hz Hp Hd. split.
  - unfold arakawa.
    now destruct (tabulates_divs2 _ _ _ (12 * d ^ 2) _
                    (tabulates_self _ _ _ (arakawa_stencil_shape _ _ z p Hz))).
  - unfold arakawa, divs2. rewrite sl2_map.
    eapply (arr2_eq_of_tabulates H W).
    + apply tabulates_map, tabulates_map.
      now apply arakawa_stencil_interior.
    + now apply arakawa_vec_tabulates.
    + intros i j _ _. cbv beta. field. exact Hd.
Qed.




(** ** The Euler integrator and the batch reshapes *)

(** X10: for same-shaped [x] and [dx], [euler(x, dx, dt)] has the shape of
    [x] for every [dt], and a zero step returns [x] sample by sample. *)
Theorem euler_zero_step (r : nat) (x dx : tensor r) (dt : Q) :
  same_shape r x dx ->
  same_shape r (euler x dx dt) x /\ tensor_eq r (euler x dx 0) x.
Proof.
  unfold euler. induction r as [|k IH]; intros Hs.
  - simpl. split; [exact I | ring].
  - simpl in *. induction Hs as [|a b x dx Hab _ IHs].
    + split; constructor.
    + destruct IHs as [Hs1 Hs2]. destruct (IH a b Hab) as [H1 H2].
      simpl. split; constructor; assumption.
Qed.




(** ** More on [diffuse] *)

(** X12: on a field without a field-aligned axis ([rank <> 3]) whose
    samples can be read, [diffuse] of order [N >= 1] returns [nu] times the
    result of [N] successive applications of the Laplacian to
    [field.data[0, ..., 0]]. *)
Theorem diffuse_planar_order
        (L : forall r : nat, tensor r -> tensor r)
        (f : Field) (a : tensor (rank f)) (N : Z) (nu : Q) :
  rank f <> 3%nat -> (1 <= N)%Z -> data_0__0 f = Ok a ->
  diffuse L f N nu =
  Ok (Arr (tmap (rank f) (Qmult nu) (laplace_pow L (rank f) (Z.to_nat N) a))).
Proof.
  intros Hr HN Ha. rewrite diffuse_planar by (assumption || lia).
  now rewrite Ha.
Qed.

(** X13: on every field with a field-aligned axis ([rank = 3]) whose samples
    can be read, [diffuse] of order [N >= 1] raises [NameError] on [axes],
    whatever the Laplacian and [nu]. *)
Theorem diffuse_rank3_NameError
        (L : forall r : nat, tensor r -> tensor r)
        (f : Field) (a : tensor (rank f)) (N : Z) (nu : Q) :
  rank f = 3%nat -> (1 <= N)%Z -> data_0__0 f = Ok a ->
  diffuse L f N nu = Raise (NameError "axes").
Proof.
  intros Hr HN Ha. unfold diffuse.
  destruct (Z.eqb_spec N 0); [lia|]. rewrite Ha. cbn [bind].
  destruct (Z.to_nat N) as [|k] eqn:En; [lia|].
  destruct f as [r d]. simpl in *. subst r. reflexivity.
Qed.

(** X14: order [0] never reads the field: [diffuse] returns the number
    [nu * 0] for every field, even one without samples; with any other
    order a field whose batch axis is empty raises [IndexError]. *)
Theorem diffuse_order_0_and_empty_batch
        (L : forall r : nat, tensor r -> tensor r) (f : Field) (N : Z) (nu : Q) :
  diffuse L f 0 nu = Ok (Num (nu * 0)) /\
  (data f = [] -> N <> 0%Z -> diffuse L f N nu = Raise IndexError).
Proof.
  split; [reflexivity|]. intros Hd HN. unfold diffuse, data_0__0.
  destruct (Z.eqb_spec N 0); [contradiction|]. now rewrite Hd.
Qed.

(** ** More on the step engine *)

Section StepMore.
Variable ndarray : Type.
Variable np_of : forall r : nat, tensor r -> ndarray.
Variables np_num np_recip : Q -> ndarray.
Variables np_add np_sub np_mul : ndarray -> ndarray -> ndarray.
Variable np_reshape : forall r : nat, ndarray -> grid r -> result (grid r).
Variable poisson_solver_solve : grid 2 -> grid 2.
Variable cgrid : Type.
Variable gradient : grid 2 -> cgrid * cgrid.
Variable getitem_0_0 : cgrid -> cgrid.
Variable cgrid_data : cgrid -> ndarray.
Variable field_laplace_axis0 : grid 3 -> grid 3.
Variable nd_laplace_axis0 : tensor 4 -> tensor 4.
Variable nd_laplace : forall r : nat, tensor r -> tensor r.
Variable self : HasegawaWakatani.

Local Abbreviation step2d' :=
  (step2d ndarray np_of np_num np_recip np_add np_sub np_mul
          np_reshape poisson_solver_solve cgrid gradient
          getitem_0_0 cgrid_data nd_laplace self).
Local Abbreviation step3d' :=
  (step3d ndarray np_of np_num np_recip np_add np_sub np_mul
          np_reshape poisson_solver_solve cgrid gradient
          cgrid_data field_laplace_axis0 nd_laplace_axis0
          nd_laplace self).
Local Abbreviation step' :=
  (step ndarray np_of np_num np_recip np_add np_sub np_mul
        np_reshape poisson_solver_solve cgrid gradient getitem_0_0
        cgrid_data field_laplace_axis0 nd_laplace_axis0 nd_laplace self).




(** X16: a state returned by the 3D path holds, as potential, [(1 + dt)]
    times the solved potential reshaped to the input shape, and as
    diagnostics the axis-0 Laplacians of that reshaped potential and of the
    input density, reshaped to the input shape. *)
Theorem step3d_phi_and_diagnostics (plasma s' : PlasmaHW 3) (dt : Q) :
  snd (step3d' plasma dt) = Ok s' ->
  exists p3d p3 n3,
    unfold_batch (omega plasma)
                 (poisson_solver_solve (fold_batch (omega plasma))) = Ok p3d /\
    tensor_eq 5 (phi s') (tmap 5 (fun x => (1 + dt) * x) p3d) /\
    chan0 4 p3d = Ok p3 /\
    chan0 4 (density plasma) = Ok n3 /\
    np_reshape 3 (np_of 4 (nd_laplace_axis0 p3)) (omega plasma)
      = Ok (laplace_phi s') /\
    np_reshape 3 (np_of 4 (nd_laplace_axis0 n3)) (omega plasma)
      = Ok (laplace_n s').
Proof.
  intros E. edestruct step3d_inv as [_ Hinv].
  destruct (Hinv _ E) as (p3d & p3 & n3 & H1 & H2 & H3 & H4 & H5 & H6 & _).
  exists p3d, p3, n3. repeat split; try assumption.
  rewrite H4. apply (euler_self 5).
Qed.

(** X17: the diagnostic fields of the input state feed back into nothing:
    on both paths, replacing them changes neither the solver call nor the
    returned density, vorticity, potential and age, nor the exception
    raised. *)
Theorem diagnostics_no_feedback (p2 : PlasmaHW 2) (lp2 ln2 : grid 2)
        (p3 : PlasmaHW 3) (lp3 ln3 : grid 3) (dt : Q) :
  same_dynamics (step2d' (with_diagnostics p2 lp2 ln2) dt) (step2d' p2 dt) /\
  same_dynamics (step3d' (with_diagnostics p3 lp3 ln3) dt) (step3d' p3 dt).
Proof.
  split.
  - apply step2d_diagnostics_no_feedback.
  - apply step3d_diagnostics_no_feedback.
Qed.

(** X18: with [kap = 0] and a diffusion order [N >= 1], [step] on a state
    with a field-aligned axis never returns a state: every run ends in an
    exception, whatever the state and the collaborators. *)
Theorem step_3d_never_returns (plasma : PlasmaHW 3) (dt : Q) :
  Qeq_bool (kap self) 0 = true -> (1 <= N self)%Z ->
  exists e, snd (step' 3%nat plasma dt) = Raise e.
Proof.
  intros Hk HN. unfold step. rewrite Hk.
  unfold step3d, solve_poisson. rewrite bindT_call. cbn [snd]. cbv zeta.
  destruct (diffuse_rank3 nd_laplace (mkField 3 (omega plasma)) (N self) 1
              eq_refl HN) as [e He].
  rewrite He.
  repeat first [ rewrite bindT_lift_Raise; eexists; reflexivity
               | step_lift ].
  all: eexists; reflexivity.
Qed.
End StepMore.

(** ** Instances of the further properties on sample inputs *)

Lemma le_1_3 : (1 <= 3)%nat.
Proof. repeat constructor. Defined.

Lemma periodic_padding_interior_witness :
  shape2 3 3 zeta33 /\ (1 <= 3)%nat /\
  exists p, periodic_padding 2 zeta33 = Ok p /\
            shape2 (3 + 2) (3 + 2) p /\ sl2 Mid Mid p = zeta33.
Proof.
  split; [exact shape2_zeta33|]. split; [exact le_1_3|].
  exact (periodic_padding_interior 3 3 zeta33 shape2_zeta33 le_1_3 le_1_3).
Defined.

Lemma periodic_padding_wraps_witness :
  shape2 3 3 zeta33 /\ (1 <= 3)%nat /\
  exists p, periodic_padding 2 zeta33 = Ok p /\
    forall i j, (i < 3 + 2)%nat -> (j < 3 + 2)%nat ->
      get2 p i j = get2 zeta33 ((i + 3 - 1) mod 3) ((j + 3 - 1) mod 3).
Proof.
  split; [exact shape2_zeta33|]. split; [exact le_1_3|].
  exact (periodic_padding_wraps 3 3 zeta33 shape2_zeta33 le_1_3 le_1_3).
Defined.

Lemma shape2_empty : shape2 0 0 [].
Proof. split; [reflexivity | constructor]. Defined.

Lemma periodic_padding_empty_axis_witness :
  shape2 0 0 [] /\ (0 = 0 \/ 0 = 0)%nat /\
  (periodic_padding 2 [] = Raise ValueError /\
   forall b d, periodic_arakawa [] b d = Raise ValueError).
Proof.
  split; [exact shape2_empty|]. split; [left; reflexivity|].
  exact (periodic_padding_empty_axis 0 0 [] shape2_empty (or_introl eq_refl)).
Defined.

Lemma periodic_arakawa_closed_form_witness :
  shape2 3 3 zeta33 /\ shape2 3 3 psi33 /\ (1 <= 3)%nat /\
  exists r, periodic_arakawa zeta33 psi33 1 = Ok r /\
    shape2 3 3 r /\
    forall i j, (i < 3)%nat -> (j < 3)%nat ->
      get2 r i j =
      arakawa_kernel (wrapped_at 3 3 zeta33 i j) (wrapped_at 3 3 psi33 i j)
      / (4 * 1 ^ 2).
Proof.
  split; [exact shape2_zeta33|]. split; [exact shape2_psi33|].
  split; [exact le_1_3|].
  exact (periodic_arakawa_closed_form 3 3 zeta33 psi33 1
           shape2_zeta33 shape2_psi33 le_1_3 le_1_3).
Defined.

Lemma periodic_arakawa_additive_witness :
  shape2 3 3 zeta33 /\ shape2 3 3 psi33 /\ (1 <= 3)%nat /\ ~ 1 == 0 /\
  ((exists rab rac r,
      periodic_arakawa zeta33 psi33 1 = Ok rab /\
      periodic_arakawa zeta33 zeta33 1 = Ok rac /\
      periodic_arakawa zeta33 (add2 psi33 zeta33) 1 = Ok r /\
      arr2_eq r (add2 rab rac)) /\
   (exists rba rca r,
      periodic_arakawa psi33 zeta33 1 = Ok rba /\
      periodic_arakawa zeta33 zeta33 1 = Ok rca /\
      periodic_arakawa (add2 psi33 zeta33) zeta33 1 = Ok r /\
      arr2_eq r (add2 rba rca))).
Proof.
  split; [exact shape2_zeta33|]. split; [exact shape2_psi33|].
  split; [exact le_1_3|]. split; [exact one_nonzero|].
  exact (periodic_arakawa_additive 3 3 zeta33 psi33 zeta33 1
           shape2_zeta33 shape2_psi33 shape2_zeta33 le_1_3 le_1_3
           one_nonzero).
Defined.

Lemma periodic_arakawa_constant_witness :
  shape2 3 3 zeta33 /\ (1 <= 3)%nat /\
  exists r1 r2,
    periodic_arakawa zeta33 (full2 3 3 (q 5)) 1 = Ok r1 /\
    periodic_arakawa (full2 3 3 (q 5)) zeta33 1 = Ok r2 /\
    Forall (Forall (fun x => x == 0)) r1 /\
    Forall (Forall (fun x => x == 0)) r2.
Proof.
  split; [exact shape2_zeta33|]. split; [exact le_1_3|].
  exact (periodic_arakawa_constant 3 3 zeta33 (q 5) 1
           shape2_zeta33 le_1_3 le_1_3).
Defined.

Lemma arakawa_interior_vs_arakawa_vec_witness :
  shape2 (1 + 2) (1 + 2) zeta33 /\ shape2 (1 + 2) (1 + 2) psi33 /\ ~ 1 == 0 /\
  (shape2 (1 + 2) (1 + 2) (arakawa zeta33 psi33 1) /\
   arr2_eq (map (map (Qmult 3)) (sl2 Mid Mid (arakawa zeta33 psi33 1)))
           (arakawa_vec zeta33 psi33 1)).
Proof.
  split; [exact shape2_zeta33|]. split; [exact shape2_psi33|].
  split; [exact one_nonzero|].
  exact (arakawa_interior_vs_arakawa_vec 1 1 zeta33 psi33 1
           shape2_zeta33 shape2_psi33 one_nonzero).
Defined.

Lemma shape3_stack_zeta : shape3 1 3 3 stack_zeta.
Proof.
  split; [reflexivity|]. constructor; [|constructor].
  split; [reflexivity | repeat constructor].
Defined.

Lemma shape3_stack_psi : shape3 1 3 3 stack_psi.
Proof.
  split; [reflexivity|]. constructor; [|constructor].
  split; [reflexivity | repeat constructor].
Defined.

Lemma periodic_arakawa_3d_is_third_witness :
  shape3 1 3 3 stack_zeta /\ shape3 1 3 3 stack_psi /\
  (1 <= 1)%nat /\ (1 <= 3)%nat /\
  exists r s,
    periodic_arakawa_3d stack_zeta stack_psi (q 2) = Ok r /\
    periodic_arakawa_slices stack_zeta stack_psi 1 = Ok s /\
    arr3_eq (map (map (map (Qmult 3))) r) s.
Proof.
  split; [exact shape3_stack_zeta|]. split; [exact shape3_stack_psi|].
  split; [exact (le_n 1)|]. split; [exact le_1_3|].
  exact (periodic_arakawa_3d_is_third 1 3 3 stack_zeta stack_psi (q 2)
           shape3_stack_zeta shape3_stack_psi (le_n 1) le_1_3 le_1_3).
Defined.

Lemma same_shape_zeta33_psi33 : same_shape 2 zeta33 psi33.
Proof. repeat constructor. Defined.

Lemma euler_zero_step_witness :
  same_shape 2 zeta33 psi33 /\
  (same_shape 2 (euler (r := 2) zeta33 psi33 (1 # 10)) zeta33 /\
   tensor_eq 2 (euler (r := 2) zeta33 psi33 0) zeta33).
Proof.
  split; [exact same_shape_zeta33_psi33|].
  exact (euler_zero_step 2 zeta33 psi33 (1 # 10) same_shape_zeta33_psi33).
Defined.

Lemma diffuse_planar_order_witness :
  rank field2 <> 3%nat /\ (1 <= 2)%Z /\
  diffuse laplace_wrap field2 2 (q 3) =
  Ok (Arr (tmap (rank field2) (Qmult (q 3))
             (laplace_pow laplace_wrap (rank field2) (Z.to_nat 2)
                [[q 1; q 0; q 0]; [q 0; q 0; q 0]; [q 0; q 0; q 0]]))).
Proof.
  assert (Hr : rank field2 <> 3%nat) by (simpl; lia).
  assert (HN : (1 <= 2)%Z) by lia.
  split; [exact Hr|]. split; [exact HN|].
  exact (diffuse_planar_order laplace_wrap field2
           [[q 1; q 0; q 0]; [q 0; q 0; q 0]; [q 0; q 0; q 0]]
           2 (q 3) Hr HN eq_refl).
Defined.

Lemma diffuse_rank3_NameError_witness :
  rank field3 = 3%nat /\ (1 <= 2)%Z /\
  diffuse laplace_wrap field3 2 (q 3) = Raise (NameError "axes").
Proof.
  assert (HN : (1 <= 2)%Z) by lia.
  split; [reflexivity|]. split; [exact HN|].
  exact (diffuse_rank3_NameError laplace_wrap field3
           [[[q 1; q 0]; [q 0; q 0]]; [[q 0; q 0]; [q 0; q 0]]]
           2 (q 3) eq_refl HN eq_refl).
Defined.


Lemma step3d_phi_and_diagnostics_witness :
  exists s',
    snd (step3d_stub (mkHW 0 0) plasma3 (1 # 10)) = Ok s' /\
    exists p3d p3 n3,
      unfold_batch (omega plasma3) (fold_batch (omega plasma3)) = Ok p3d /\
      tensor_eq 5 (phi s') (tmap 5 (fun x => (1 + (1 # 10)) * x) p3d) /\
      chan0 4 p3d = Ok p3 /\
      chan0 4 (density plasma3) = Ok n3 /\
      stub_reshape 3 tt (omega plasma3) = Ok (laplace_phi s') /\
      stub_reshape 3 tt (omega plasma3) = Ok (laplace_n s').
Proof.
  eexists. split; [vm_compute; reflexivity|].
  apply (step3d_phi_and_diagnostics
           unit (fun _ _ => tt) (fun _ => tt) (fun _ => tt)
           (fun _ _ => tt) (fun _ _ => tt) (fun _ _ => tt)
           stub_reshape (fun o => o) unit (fun _ => (tt, tt))
           (fun _ => tt) (fun a => a) (laplace_wrap 4) laplace_wrap
           (mkHW 0 0) plasma3 _ (1 # 10)).
  vm_compute. reflexivity.
Defined.

Lemma step_3d_never_returns_witness :
  Qeq_bool (kap (mkHW 0 2)) 0 = true /\ (1 <= N (mkHW 0 2))%Z /\
  exists e, snd (step_stub (mkHW 0 2) 3%nat plasma3 (1 # 10)) = Raise e.
Proof.
  assert (HN : (1 <= N (mkHW 0 2))%Z) by (simpl; lia).
  split; [reflexivity|]. split; [exact HN|].
  exact (step_3d_never_returns
           unit (fun _ _ => tt) (fun _ => tt) (fun _ => tt)
           (fun _ _ => tt) (fun _ _ => tt) (fun _ _ => tt)
           stub_reshape (fun o => o) unit (fun _ => (tt, tt)) (fun c => c)
           (fun _ => tt) (fun a => a) (laplace_wrap 4) laplace_wrap
           (mkHW 0 2) plasma3 (1 # 10) eq_refl HN).
Defined.
